(** * Extended backpropagation: strategies, convolution statistics,
      diagonal-Hessian ReLU extension and parallel composites

    A shallow embedding of the Python sources

    - [backpack/secondorder/strategies.py]  (strategy enumerations),
    - [bpexts/gradient/conv2d.py]           (per-example statistics of Conv2d),
    - [bpexts/gradient/diagh/relu.py]       (diagonal-Hessian extension, ReLU),
    - [bpexts/hbp/parallel/parallel_test.py] (the composite's tested contract),
    - [test/core/derivatives/derivatives_test.py] (parametrization, skipping
      and expected failures of the derivative tests).

    Python exceptions are values of [exn]; a call that may raise returns a
    [result]; methods that mutate an object thread that object explicitly
    and hand it back even when they raise, since Python keeps the mutations
    made before an exception.  The elements of a tensor are written as
    integers; what is proved of tensors is their sizes, when an operation
    returns or raises, and how the results of the program's own operations
    relate to each other: no theorem gives the elements of a result by a
    formula of its own, since torch rounds where the integers do not. *)

From stdpp Require Import base list strings gmap pretty.
From Stdlib Require Import ZArith Lia.

Open Scope Z_scope.

(** ** Python exceptions and results *)

Inductive exn : Type :=
| ValueError (msg : string)
| AttributeError (msg : string)
| NameError (name : string)
| IndexError (msg : string)
| TypeError (msg : string)
| RuntimeError (msg : string)
| SizeMismatch (msg : string).

Inductive result (A : Type) : Type :=
| Ok (a : A)
| Raise (e : exn).

Arguments Ok {A} a.
Arguments Raise {A} e.

(** Sequencing: the first exception raised ends the computation. *)
#[global] Instance result_bind : MBind result := fun A B k r =>
  match r with
  | Ok a => k a
  | Raise e => Raise e
  end.

#[global] Instance result_ret : MRet result := fun A a => Ok a.

Definition succeeds {A} (r : result A) : Prop := exists a, r = Ok a.

(** The error kinds of the specification, as the Python classes that the
    sources raise for them. *)
Definition raises_UnknownStrategy {A} (r : result A) : Prop :=
  exists msg, r = Raise (AttributeError msg).

Definition raises_ShapeError {A} (r : result A) : Prop :=
  exists msg, r = Raise (ValueError msg).

(** [str(list_of_str)] for labels without quotes or escapes. *)
Definition py_repr_str (s : string) : string := "'" +:+ s +:+ "'".

Fixpoint py_join (sep : string) (l : list string) : string :=
  match l with
  | [] => ""
  | [s] => s
  | s :: rest => s +:+ sep +:+ py_join sep rest
  end.

Definition py_repr_list (l : list string) : string :=
  "[" +:+ py_join ", " (py_repr_str <$> l) +:+ "]".

(** [x in choices] on a list of strings. *)
Definition py_in (x : string) (choices : list string) : bool :=
  bool_decide (x ∈ choices).

(** ** backpack/secondorder/strategies.py *)

Module LossHessianStrategy.

Definition EXACT : string := "exact".
Definition SAMPLING : string := "sampling".
Definition AVERAGE : string := "average".
Definition CHOICES : list string := [EXACT; SAMPLING; AVERAGE].

Definition check_exists (strategy : string) : result unit :=
  if negb (py_in strategy CHOICES) then
    Raise (AttributeError
             ("Unknown loss Hessian strategy: " +:+ strategy +:+
              ". Expecting one of " +:+ py_repr_list CHOICES))
  else Ok tt.

End LossHessianStrategy.

Module BackpropStrategy.

Definition SQRT : string := "sqrt".
Definition BATCH_AVERAGE : string := "average".
Definition CHOICES : list string := [BATCH_AVERAGE; SQRT].

Definition check_exists (strategy : string) : result unit :=
  if negb (py_in strategy CHOICES) then
    Raise (AttributeError
             ("Unknown backpropagation strategy: " +:+ strategy +:+
              ". Expect " +:+ py_repr_list CHOICES))
  else Ok tt.

Definition is_batch_average (strategy : string) : result bool :=
  _ ← check_exists strategy;
  Ok (bool_decide (strategy = BATCH_AVERAGE)).

Definition is_sqrt (strategy : string) : result bool :=
  _ ← check_exists strategy;
  Ok (bool_decide (strategy = SQRT)).

End BackpropStrategy.

Module ExpectationApproximation.

Definition BOTEV_MARTENS : string := "E[J^T E(H) J]".
Definition CHEN : string := "E(J^T) E(H) E(J)".
Definition CHOICES : list string := [BOTEV_MARTENS; CHEN].

Definition check_exists (strategy : string) : result unit :=
  if negb (py_in strategy CHOICES) then
    Raise (AttributeError
             ("Unknown EA strategy: " +:+ strategy +:+
              ". Expect " +:+ py_repr_list CHOICES))
  else Ok tt.

Definition should_average_param_jac (strategy : string) : result bool :=
  _ ← check_exists strategy;
  Ok (bool_decide (strategy = CHEN)).

End ExpectationApproximation.

(** ** Indexing and finite sums *)

(** [r[i]], zero outside the list. *)
Definition get (r : list Z) (i : nat) : Z := default 0 (r !! i).

(** [f 0 + ... + f (n - 1)] *)
Fixpoint big_sum (n : nat) (f : nat -> Z) : Z :=
  match n with
  | O => 0
  | S n' => f O + big_sum n' (fun k => f (S k))
  end.

(** ** Tensors (the part of torch that conv2d.py uses)

    A tensor is its size and its elements in row-major order, as
    [t.size()] and the contiguous storage of torch.  Tensors built by torch
    satisfy [well_formed].  The elements stand for torch's scalars; they
    are written as integers, which agree with float32 on the small values
    of the examples below and not in general. *)

Record tensor : Type := Tensor { size : list nat; storage : list Z }.

Definition numel_of (s : list nat) : nat := foldr Nat.mul 1%nat s.
Definition numel (t : tensor) : nat := numel_of (size t).
Definition well_formed (t : tensor) : Prop := length (storage t) = numel t.

(** [t.size(i)] *)
Definition size_at (t : tensor) (i : nat) : result nat :=
  match size t !! i with
  | Some n => Ok n
  | None => Raise (IndexError "Dimension out of range")
  end.

(** [l] cut into [n] consecutive rows of [len] elements. *)
Definition rows (n len : nat) (l : list Z) : list (list Z) :=
  reshape (replicate n len) l.

Definition dot (u v : list Z) : Z := foldr Z.add 0 (zip_with Z.mul u v).

(** Elementwise sum of rows of [len] elements. *)
Definition vsum (len : nat) (rs : list (list Z)) : list Z :=
  foldr (zip_with Z.add) (replicate len 0) rs.

(** [t.sum(d)]: the axis [d] is summed out. *)
Definition sum_dim (d : nat) (t : tensor) : result tensor :=
  match size t !! d with
  | None => Raise (IndexError "Dimension out of range")
  | Some n =>
      let outer := numel_of (take d (size t)) in
      let inner := numel_of (drop (S d) (size t)) in
      Ok (Tensor (delete d (size t))
            (mjoin ((fun blk => vsum inner (rows n inner blk))
                      <$> rows outer (n * inner) (storage t))))
  end.

(** [t ** 2] *)
Definition pow2 (t : tensor) : tensor :=
  Tensor (size t) ((fun x => x ^ 2) <$> storage t).

(** [t.view(s)] for a size without [-1]. *)
Definition view (t : tensor) (s : list nat) : result tensor :=
  if bool_decide (numel_of s = numel t) then Ok (Tensor s (storage t))
  else Raise (RuntimeError "shape is invalid for input size").

(** [t.view(a, b, -1)]: the last extent is inferred; torch refuses to infer
    it when [a * b] is zero. *)
Definition view_infer_last (t : tensor) (a b : nat) : result tensor :=
  if bool_decide (a * b = 0)%nat then
    if bool_decide (numel t = 0%nat) then
      Raise (RuntimeError "cannot reshape: the unspecified dimension is ambiguous")
    else Raise (RuntimeError "shape is invalid for input size")
  else if bool_decide (numel t `mod` (a * b) = 0)%nat then
    Ok (Tensor [a; b; (numel t `div` (a * b))%nat] (storage t))
  else Raise (RuntimeError "shape is invalid for input size").

(** torch's broadcasting of the two extents that one letter of an einsum
    names: they agree, or one of them is 1. *)
Definition broadcast (a b : nat) : option nat :=
  if bool_decide (a = b) then Some a
  else if bool_decide (a = 1%nat) then Some b
  else if bool_decide (b = 1%nat) then Some a
  else None.

(** The elements of a tensor of size [(b1, m, j1)] expanded to the size
    [(b, m, j)]: an axis of extent 1 is repeated. *)
Definition expand (t : tensor) (b1 m j1 b j : nat) : list Z :=
  bi ← seq 0 b; mi ← seq 0 m; ji ← seq 0 j;
  [get (storage t)
     (((if bool_decide (b1 = 1%nat) then 0 else bi) * m + mi) * j1
      + (if bool_decide (j1 = 1%nat) then 0 else ji))%nat].

(** [einsum('blj,bkj->bkl', (A, B))]:
    [out[b,k,l] = sum_j A[b,l,j] * B[b,k,j]], the extents named [b] and
    those named [j] being broadcast. *)
Definition einsum_blj_bkj_bkl (A B : tensor) : result tensor :=
  match size A, size B with
  | [b1; l; j1], [b2; k; j2] =>
      match broadcast b1 b2, broadcast j1 j2 with
      | Some b, Some j =>
          Ok (Tensor [b; k; l]
                (mjoin (zip_with
                          (fun Ab Bb =>
                             mjoin ((fun Bk => (fun Al => dot Al Bk) <$> rows l j Ab)
                                      <$> rows k j Bb))
                          (rows b (l * j) (expand A b1 l j1 b j))
                          (rows b (k * j) (expand B b2 k j2 b j)))))
      | _, _ => Raise (RuntimeError "einsum(): operands do not broadcast with remapped shapes")
      end
  | _, _ => Raise (RuntimeError "einsum(): subscripts do not match the operand")
  end.

(** [einsum('bml,bkl->bmk', (A, B))]:
    [out[b,m,k] = sum_l A[b,m,l] * B[b,k,l]], with the same broadcasting. *)
Definition einsum_bml_bkl_bmk (A B : tensor) : result tensor :=
  match size A, size B with
  | [b1; m; l1], [b2; k; l2] =>
      match broadcast b1 b2, broadcast l1 l2 with
      | Some b, Some l =>
          Ok (Tensor [b; m; k]
                (mjoin (zip_with
                          (fun Ab Bb =>
                             mjoin ((fun Am => (fun Bk => dot Am Bk) <$> rows k l Bb)
                                      <$> rows m l Ab))
                          (rows b (m * l) (expand A b1 m l1 b l))
                          (rows b (k * l) (expand B b2 k l2 b l)))))
      | _, _ => Raise (RuntimeError "einsum(): operands do not broadcast with remapped shapes")
      end
  | _, _ => Raise (RuntimeError "einsum(): subscripts do not match the operand")
  end.

(** [torch.nn.Unfold(kernel_size, dilation, padding, stride)]: the sliding
    blocks of the input, zero padded.  A batched input of size
    [(N, C, H, W)] gives a tensor of size [(N, C * kh * kw, L)] and an
    input of size [(C, H, W)] one of size [(C * kh * kw, L)]; the batch may
    be empty, the other extents may not.  torch checks the
    hyperparameters, then the input (reading its extents 1 and 2 first,
    which an input of lower rank does not have), then the number of
    sliding blocks; its messages, which print the sizes, are abridged. *)
Definition out_extent (n k d p s : nat) : Z :=
  (Z.of_nat n + 2 * Z.of_nat p - Z.of_nat d * (Z.of_nat k - 1) - 1) `div` Z.of_nat s + 1.

Definition pixel (x : tensor) (C H W : nat) (n c : nat) (h w : Z) : Z :=
  if bool_decide (0 <= h < Z.of_nat H /\ 0 <= w < Z.of_nat W) then
    default 0 (storage x !! (((n * C + c) * H + Z.to_nat h) * W + Z.to_nat w)%nat)
  else 0.

(** The blocks of [N] examples of size [(C, H, W)]. *)
Definition sliding_blocks (kernel_size dilation padding stride : nat * nat)
    (x : tensor) (N C H W : nat) : list Z :=
  let Lh := out_extent H kernel_size.1 dilation.1 padding.1 stride.1 in
  let Lw := out_extent W kernel_size.2 dilation.2 padding.2 stride.2 in
  n ← seq 0 N; c ← seq 0 C;
  ki ← seq 0 kernel_size.1; kj ← seq 0 kernel_size.2;
  oi ← seq 0 (Z.to_nat Lh); oj ← seq 0 (Z.to_nat Lw);
  [pixel x C H W n c
     (Z.of_nat (oi * stride.1 + ki * dilation.1) - Z.of_nat padding.1)
     (Z.of_nat (oj * stride.2 + kj * dilation.2) - Z.of_nat padding.2)].

Definition Unfold (kernel_size dilation padding stride : nat * nat) (x : tensor)
  : result tensor :=
  if negb (bool_decide ((0 < kernel_size.1)%nat /\ (0 < kernel_size.2)%nat)) then
    Raise (RuntimeError "kernel size should be greater than zero")
  else if negb (bool_decide ((0 < dilation.1)%nat /\ (0 < dilation.2)%nat)) then
    Raise (RuntimeError "dilation should be greater than zero")
  else if negb (bool_decide ((0 < stride.1)%nat /\ (0 < stride.2)%nat)) then
    Raise (RuntimeError "stride should be greater than zero")
  else
    let blocks (H W : nat) : Z :=
      out_extent H kernel_size.1 dilation.1 padding.1 stride.1
      * out_extent W kernel_size.2 dilation.2 padding.2 stride.2 in
    let enough (H W : nat) : bool :=
      bool_decide (0 < out_extent H kernel_size.1 dilation.1 padding.1 stride.1 /\
                   0 < out_extent W kernel_size.2 dilation.2 padding.2 stride.2) in
    match size x with
    | [N; C; H; W] =>
        if negb (bool_decide ((0 < C)%nat /\ (0 < H)%nat /\ (0 < W)%nat)) then
          Raise (RuntimeError "Expected 3D or 4D (batch mode) tensor with possibly 0 batch size and other non-zero dimensions for input")
        else if negb (enough H W) then
          Raise (RuntimeError "the components of the calculated shape of the array of sliding blocks must be at least one")
        else
          Ok (Tensor [N; (C * kernel_size.1 * kernel_size.2)%nat;
                      Z.to_nat (blocks H W)]
                (sliding_blocks kernel_size dilation padding stride x N C H W))
    | [C; H; W] =>
        if negb (bool_decide ((0 < C)%nat /\ (0 < H)%nat /\ (0 < W)%nat)) then
          Raise (RuntimeError "Expected 3D or 4D (batch mode) tensor with possibly 0 batch size and other non-zero dimensions for input")
        else if negb (enough H W) then
          Raise (RuntimeError "the components of the calculated shape of the array of sliding blocks must be at least one")
        else
          Ok (Tensor [(C * kernel_size.1 * kernel_size.2)%nat;
                      Z.to_nat (blocks H W)]
                (sliding_blocks kernel_size dilation padding stride x 1 C H W))
    | [] | [_] => Raise (IndexError "Dimension out of range")
    | [_; extent1] =>
        if bool_decide (extent1 = 0%nat) then
          Raise (RuntimeError "Expected 3D or 4D (batch mode) tensor with possibly 0 batch size and other non-zero dimensions for input")
        else Raise (IndexError "Dimension out of range")
    | _ =>
        Raise (RuntimeError "Expected 3D or 4D (batch mode) tensor with possibly 0 batch size and other non-zero dimensions for input")
    end.

(** ** The extension context (bpexts/gradient/config.py)

    [config.py] is not among the sources; conv2d.py and relu.py read the
    global object [CTX] that it defines. *)

Module config.

(** Modelled from the spec: the identifiers of the extensions "per-example
    gradient" and "sum of squared gradients" ([config.py] is missing). *)
Definition BATCH_GRAD : string := "BATCH_GRAD".
Definition SUM_GRAD_SQUARED : string := "SUM_GRAD_SQUARED".

(** Modelled from the spec: the context ([config.py] is missing) holds the
    set of active extension identifiers and the list of square-root factors,
    with their signs, that are being backpropagated. *)
Record Context : Type := {
  active_exts : gset string;
  _backpropagated_sqrt_h : list tensor;
  _backpropagated_sqrt_h_signs : list Z
}.

(** Modelled from the spec: [CTX.is_active(extension)] ([config.py] is
    missing) tells whether the extension is among the active ones. *)
Definition is_active (CTX : Context) (extension : string) : bool :=
  bool_decide (extension ∈ active_exts CTX).

End config.

(** ** bpexts/gradient/conv2d.py *)

Module conv2d.

(** A [torch.nn.Parameter]: its value, its [requires_grad] flag, and the
    attributes that extensions attach to the object. *)
Record nnParameter : Type := {
  data : tensor;
  requires_grad : bool;
  attrs : gmap string tensor
}.

Definition setattr (name : string) (v : tensor) (p : nnParameter) : nnParameter :=
  {| data := data p; requires_grad := requires_grad p;
     attrs := <[name := v]> (attrs p) |}.

(** The module: the hyperparameters of [torch.nn.Conv2d], its parameters
    ([bias] is [None] for a layer without bias) and its registered buffers. *)
Record Conv2d : Type := {
  in_channels : nat;
  out_channels : nat;
  kernel_size : nat * nat;
  stride : nat * nat;
  padding : nat * nat;
  dilation : nat * nat;
  groups : nat;
  weight : nnParameter;
  bias : option nnParameter;
  buffers : gmap string tensor
}.

Definition with_weight (f : nnParameter -> nnParameter) (m : Conv2d) : Conv2d :=
  {| in_channels := in_channels m; out_channels := out_channels m;
     kernel_size := kernel_size m; stride := stride m; padding := padding m;
     dilation := dilation m; groups := groups m;
     weight := f (weight m); bias := bias m; buffers := buffers m |}.

Definition with_bias (f : nnParameter -> nnParameter) (m : Conv2d) : Conv2d :=
  {| in_channels := in_channels m; out_channels := out_channels m;
     kernel_size := kernel_size m; stride := stride m; padding := padding m;
     dilation := dilation m; groups := groups m;
     weight := weight m; bias := f <$> bias m; buffers := buffers m |}.

(** [module.register_buffer(name, t)] *)
Definition register_buffer (name : string) (t : tensor) (m : Conv2d) : Conv2d :=
  {| in_channels := in_channels m; out_channels := out_channels m;
     kernel_size := kernel_size m; stride := stride m; padding := padding m;
     dilation := dilation m; groups := groups m;
     weight := weight m; bias := bias m; buffers := <[name := t]> (buffers m) |}.

(** [self.input] *)
Definition get_input (self : Conv2d) : result tensor :=
  match buffers self !! "input" with
  | Some t => Ok t
  | None => Raise (AttributeError "'Conv2d' object has no attribute 'input'")
  end.

(** [self.unfold], built by [__init__] from the layer's hyperparameters. *)
Definition unfold (self : Conv2d) (x : tensor) : result tensor :=
  Unfold (kernel_size self) (dilation self) (padding self) (stride self) x.

(** Hooks and methods mutate the module and may raise: they map the module
    to the module they leave behind and to what they return or raise. *)
Definition hook (A : Type) : Type := Conv2d -> Conv2d * result A.

Definition hret {A} (a : A) : hook A := fun m => (m, Ok a).
Definition hraise {A} (e : exn) : hook A := fun m => (m, Raise e).
Definition hbind {A B} (c : hook A) (k : A -> hook B) : hook B :=
  fun m => match c m with
           | (m', Ok a) => k a m'
           | (m', Raise e) => (m', Raise e)
           end.
Definition hread {A} (f : Conv2d -> result A) : hook A := fun m => (m, f m).
Definition hmodify (f : Conv2d -> Conv2d) : hook unit := fun m => (f m, Ok tt).
Definition hwhen (cond : Conv2d -> bool) (c : hook unit) : hook unit :=
  fun m => if cond m then c m else (m, Ok tt).

Notation "c1 >> c2" := (hbind c1 (fun _ => c2)) (at level 62, right associativity).

(** [clone().detach()]: a copy with the same elements. *)
Definition clone_detach (t : tensor) : tensor := t.

Definition store_input (input : list tensor) : hook unit :=
  if negb (bool_decide (length input = 1%nat)) then
    hraise (ValueError "Cannot handle multi-input scenario")
  else
    match input !! 0%nat with
    | None => hraise (IndexError "tuple index out of range")
    | Some input0 =>
        if negb (bool_decide (length (size input0) = 4%nat)) then
          hraise (ValueError "Expecting 4D input (batch, channel, x, y)")
        else hmodify (register_buffer "input" (clone_detach input0))
    end.

Definition _compute_bias_grad_batch (self : Conv2d) (grad_output : tensor)
  : result tensor :=
  s3 ← sum_dim 3 grad_output;
  sum_dim 2 s3.

Definition _compute_weight_grad_batch (self : Conv2d) (grad_output : tensor)
  : result tensor :=
  batch_size ← size_at grad_output 0;
  let dE_dw_shape := batch_size :: size (data (weight self)) in
  input ← get_input self;
  X ← unfold self input;
  dE_dY ← view_infer_last grad_output batch_size (out_channels self);
  dE_dW ← einsum_blj_bkj_bkl X dE_dY;
  view dE_dW dE_dw_shape.

Definition compute_grad_batch (grad_output : tensor) : hook unit :=
  hwhen (fun self => match bias self with
                     | Some b => requires_grad b
                     | None => false
                     end)
    (hbind (hread (fun self => _compute_bias_grad_batch self grad_output))
       (fun v => hmodify (with_bias (setattr "grad_batch" v)))) >>
  hwhen (fun self => requires_grad (weight self))
    (hbind (hread (fun self => _compute_weight_grad_batch self grad_output))
       (fun v => hmodify (with_weight (setattr "grad_batch" v)))).

Definition _compute_weight_sgs (self : Conv2d) (grad_output : tensor)
  : result tensor :=
  input ← get_input self;
  X ← unfold self input;
  batch_size ← size_at grad_output 0;
  dE_dY ← view_infer_last grad_output batch_size (out_channels self);
  E ← einsum_bml_bkl_bmk dE_dY X;
  s ← sum_dim 0 (pow2 E);
  view s (size (data (weight self))).

Definition _compute_bias_sgs (self : Conv2d) (grad_output : tensor)
  : result tensor :=
  s3 ← sum_dim 3 grad_output;
  s2 ← sum_dim 2 s3;
  sum_dim 0 (pow2 s2).

Definition compute_sum_grad_squared (grad_output : tensor) : hook unit :=
  hwhen (fun self => match bias self with
                     | Some b => requires_grad b
                     | None => false
                     end)
    (hbind (hread (fun self => _compute_bias_sgs self grad_output))
       (fun v => hmodify (with_bias (setattr "sum_grad_squared" v)))) >>
  hwhen (fun self => requires_grad (weight self))
    (hbind (hread (fun self => _compute_weight_sgs self grad_output))
       (fun v => hmodify (with_weight (setattr "sum_grad_squared" v)))).

Definition compute_first_order_info (CTX : config.Context)
    (grad_input grad_output : list tensor) : hook unit :=
  if negb (bool_decide (length grad_output = 1%nat)) then
    hraise (ValueError "Cannot handle multi-output scenario")
  else
    match grad_output !! 0%nat with
    | None => hraise (IndexError "tuple index out of range")
    | Some g =>
        let grad_out := clone_detach g in
        hwhen (fun _ => config.is_active CTX config.BATCH_GRAD)
          (compute_grad_batch grad_out) >>
        hwhen (fun _ => config.is_active CTX config.SUM_GRAD_SQUARED)
          (compute_sum_grad_squared grad_out)
    end.

(** [del p.<name>] *)
Definition delattr (name : string) (p : nnParameter) : result nnParameter :=
  match attrs p !! name with
  | Some _ =>
      Ok {| data := data p; requires_grad := requires_grad p;
            attrs := delete name (attrs p) |}
  | None => Raise (AttributeError name)
  end.

(** [try: c  except AttributeError: pass] *)
Definition except_AttributeError_pass (c : hook unit) : hook unit :=
  fun m => match c m with
           | (m', Raise (AttributeError _)) => (m', Ok tt)
           | r => r
           end.

(** [del self.weight.<name>] and [del self.bias.<name>]; the latter raises
    [AttributeError] also when [self.bias] is [None]. *)
Definition del_weight_attr (name : string) : hook unit :=
  fun m => match delattr name (weight m) with
           | Ok w => (with_weight (fun _ => w) m, Ok tt)
           | Raise e => (m, Raise e)
           end.

Definition del_bias_attr (name : string) : hook unit :=
  fun m => match bias m with
           | None => (m, Raise (AttributeError name))
           | Some b =>
               match delattr name b with
               | Ok b' => (with_bias (fun _ => b') m, Ok tt)
               | Raise e => (m, Raise e)
               end
           end.

Definition clear_grad_batch : hook unit :=
  except_AttributeError_pass (del_weight_attr "grad_batch") >>
  except_AttributeError_pass (del_bias_attr "grad_batch").

Definition clear_sum_grad_squared : hook unit :=
  except_AttributeError_pass (del_weight_attr "sum_grad_squared") >>
  except_AttributeError_pass (del_bias_attr "sum_grad_squared").

End conv2d.

(** The two statistics that the specification tells apart, for a
    per-example gradient [g] whose axis 0 is the batch axis:
    the sum over the batch of the elementwise squares, and the elementwise
    square of the sum over the batch (of the ordinary gradient). *)
Definition sum_of_squares_over_batch (g : tensor) : result tensor :=
  sum_dim 0 (pow2 g).


(** The contraction that both weight statistics start from: the unfolded
    cached input against the output gradient, viewed as
    [(batch_size, out_channels, -1)]. *)
Definition weight_contraction (self : conv2d.Conv2d) (grad_output : tensor)
  : result tensor :=
  batch_size ← size_at grad_output 0;
  input ← conv2d.get_input self;
  X ← conv2d.unfold self input;
  dE_dY ← view_infer_last grad_output batch_size (conv2d.out_channels self);
  einsum_blj_bkj_bkl X dE_dY.

(** ** bpexts/gradient/diagh/relu.py *)

Module diagh_relu.

(** [module.input0]: the input cached on the ReLU module. *)
Record CachedInput : Type := { value : tensor; requires_grad : bool }.
Record ReLU : Type := { input0 : CachedInput }.

(** A function has the context as its state: [CTX] is a global object. *)
Definition stateful (A : Type) : Type := config.Context -> config.Context * result A.

(** What a name of the file can be bound to, as far as a call with the five
    arguments of [apply] goes: something that takes them, or anything else
    (a module, a class, an instance, a function of another signature). *)
Inductive pyobject : Type :=
| PyCallable (f : ReLU -> list tensor -> list tensor -> list tensor -> list Z
                  -> stateful unit)
| PyOther.

Definition call (callee : pyobject) (module : ReLU)
    (grad_input grad_output sqrt_h_outs : list tensor) (sqrt_h_outs_signs : list Z)
  : stateful unit :=
  match callee with
  | PyCallable f => f module grad_input grad_output sqrt_h_outs sqrt_h_outs_signs
  | PyOther => fun CTX => (CTX, Raise (TypeError "object is not callable with these arguments"))
  end.

(** The names bound at module level by the imports and the assignments of
    relu.py.  The methods of [DiagHReLU] are attributes of the class: they
    are no names of this namespace. *)
Definition module_globals : list (string * pyobject) :=
  [("torch", PyOther); ("CTX", PyOther); ("einsum", PyOther);
   ("BackpropExtension", PyOther); ("jac_mat_prod", PyOther);
   ("DIAG_H", PyOther); ("DiagHReLU", PyOther); ("EXTENSIONS", PyOther)].

(** The local names of [apply] at the call. *)
Definition apply_locals : list (string * pyobject) :=
  [("self", PyOther); ("module", PyOther); ("grad_input", PyOther);
   ("grad_output", PyOther); ("sqrt_h_outs", PyOther);
   ("sqrt_h_outs_signs", PyOther)].

(** Python's builtin functions (the builtin constants and exception
    classes are left out of the list). *)
Definition builtins : list (string * pyobject) :=
  (fun name => (name, PyOther)) <$>
  ["abs"; "aiter"; "all"; "anext"; "any"; "ascii"; "bin"; "bool"; "breakpoint";
   "bytearray"; "bytes"; "callable"; "chr"; "classmethod"; "compile"; "complex";
   "delattr"; "dict"; "dir"; "divmod"; "enumerate"; "eval"; "exec"; "filter";
   "float"; "format"; "frozenset"; "getattr"; "globals"; "hasattr"; "hash";
   "help"; "hex"; "id"; "input"; "int"; "isinstance"; "issubclass"; "iter";
   "len"; "list"; "locals"; "map"; "max"; "memoryview"; "min"; "next"; "object";
   "oct"; "open"; "ord"; "pow"; "print"; "property"; "range"; "repr";
   "reversed"; "round"; "set"; "setattr"; "slice"; "sorted"; "staticmethod";
   "str"; "sum"; "super"; "tuple"; "type"; "vars"; "zip"; "__import__"].

Fixpoint lookup_name (name : string) (scope : list (string * pyobject))
  : option pyobject :=
  match scope with
  | [] => None
  | (n, o) :: rest => if bool_decide (n = name) then Some o else lookup_name name rest
  end.

(** A bare name inside a method: locals, then module globals, then
    builtins; the class body is not searched. *)
Definition resolve_name (name : string) : result pyobject :=
  match lookup_name name (apply_locals ++ module_globals ++ builtins) with
  | Some o => Ok o
  | None => Raise (NameError ("name '" +:+ name +:+ "' is not defined"))
  end.

Section methods.

(** [jac_mat_prod] of [..jmp.relu], which is not among the sources. *)
Variable jac_mat_prod : ReLU -> list tensor -> list tensor -> tensor -> result tensor.

(** The method [DiagHReLU.apply]. *)
Definition apply (module : ReLU) (grad_input grad_output : list tensor)
  : stateful unit :=
  fun CTX =>
    let sqrt_h_outs := config._backpropagated_sqrt_h CTX in
    let sqrt_h_outs_signs := config._backpropagated_sqrt_h_signs CTX in
    if requires_grad (input0 module) then
      match resolve_name "backpropagate_sqrt_h" with
      | Raise e => (CTX, Raise e)
      | Ok callee =>
          call callee module grad_input grad_output sqrt_h_outs sqrt_h_outs_signs CTX
      end
    else (CTX, Ok tt).

(** Python lists are objects: the argument [sqrt_h_outs] and the attribute
    [CTX._backpropagated_sqrt_h] each name one, and they may name the same
    one or two different ones.  The memory of the method
    [backpropagate_sqrt_h] is the content of every list object, by
    identity, and the identity of the object that the attribute names. *)
Record memory : Type := {
  lists : nat -> list tensor;
  CTX_backpropagated_sqrt_h : nat;
}.

(** [l[i] = v] on the list object [l]. *)
Definition setitem (l i : nat) (v : tensor) (s : memory) : memory :=
  {| lists := fun a => if bool_decide (a = l) then <[i := v]> (lists s l) else lists s a;
     CTX_backpropagated_sqrt_h := CTX_backpropagated_sqrt_h s |}.

(** [CTX._backpropagated_sqrt_h = l]. *)
Definition set_CTX_backpropagated_sqrt_h (l : nat) (s : memory) : memory :=
  {| lists := lists s; CTX_backpropagated_sqrt_h := l |}.

(** The loop [for i, sqrt_h in enumerate(sqrt_h_outs): sqrt_h_outs[i] = ...]
    from index [i] on, for at most [fuel] elements: the iterator reads the
    list object at each step, the assignment writes into it. *)
Fixpoint backpropagate_loop (fuel i : nat) (module : ReLU)
    (grad_input grad_output : list tensor) (sqrt_h_outs : nat)
  : memory -> memory * result unit :=
  fun s =>
    match fuel with
    | O => (s, Ok tt)
    | S fuel' =>
        match lists s sqrt_h_outs !! i with
        | None => (s, Ok tt)
        | Some sqrt_h =>
            match jac_mat_prod module grad_input grad_output sqrt_h with
            | Raise e => (s, Raise e)
            | Ok v =>
                backpropagate_loop fuel' (S i) module grad_input grad_output
                  sqrt_h_outs (setitem sqrt_h_outs i v s)
            end
        end
    end.

(** The method [DiagHReLU.backpropagate_sqrt_h], called with a list object
    for [sqrt_h_outs]; the assignments do not change the length of the
    list, which bounds the loop. *)
Definition backpropagate_sqrt_h (module : ReLU)
    (grad_input grad_output : list tensor) (sqrt_h_outs : nat)
    (sqrt_h_outs_signs : list Z) : memory -> memory * result unit :=
  fun s =>
    match backpropagate_loop (length (lists s sqrt_h_outs)) 0
            module grad_input grad_output sqrt_h_outs s with
    | (s', Ok _) => (set_CTX_backpropagated_sqrt_h sqrt_h_outs s', Ok tt)
    | (s', Raise e) => (s', Raise e)
    end.

End methods.

End diagh_relu.

(** ** The parallel composite (bpexts/hbp/parallel)

    Only the test file [parallel_test.py] is among the sources; the
    composite itself ([parallel.py]), the linear layer ([linear.py]) and the
    brute-force Hessian ([hessian/exact.py]) are modelled from the
    specification and from what the test builds. *)

Module parallel.

(** Modelled from the spec: a unit feature is one output feature of a linear
    layer, its row of the weight matrix and its entry of the bias. *)
Record unit_feature : Type := { row : list Z; offset : Z }.

(** Modelled from the spec: a linear sibling is its consecutive unit
    features, so that [out_features] is their number. *)
Abbreviation HBPLinear := (list unit_feature).

(** Modelled from the spec: the output-feature count of a sibling. *)
Definition out_features (layer : HBPLinear) : nat := length layer.

(** Modelled from the spec: the parallel composite groups sibling layers
    that consume the same input; their outputs are concatenated along the
    feature axis. *)
Record HBPParallel : Type := {
  in_features : nat;
  children : list HBPLinear
}.

(** Modelled from the spec: [HBPParallel.from_module(linear)], as the test
    uses it, is the composite with the layer as its one block. *)
Definition from_module (n : nat) (linear : HBPLinear) : HBPParallel :=
  {| in_features := n; children := [linear] |}.

(** Modelled from the spec: the output-feature counts [n1, ..., nk] of the
    siblings. *)
Definition out_features_list (c : HBPParallel) : list nat :=
  out_features <$> children c.

(** Modelled from the spec: [total_out_features] is the sum of the siblings'
    output-feature counts. *)
Definition total_out_features (c : HBPParallel) : nat :=
  sum_list (out_features_list c).

Definition ceil_div (a b : nat) : nat := ((a + b - 1) `div` b)%nat.

(** Modelled from the spec: greedy left-to-right packing of [remaining]
    unit features into [blocks] blocks kept as equal as possible: each
    block takes the ceiling of its share of what remains. *)
Fixpoint pack (remaining blocks : nat) : list nat :=
  match blocks with
  | O => []
  | S blocks' =>
      let sz := ceil_div remaining blocks in
      sz :: pack (remaining - sz) blocks'
  end.

(** Modelled from the spec: the partition of [merge(num_blocks)]; a target
    of [total_out_features] or more gives [total_out_features] unit
    blocks. *)
Definition compute_out_features_list (c : HBPParallel) (num_blocks : nat)
  : list nat :=
  pack (total_out_features c) (num_blocks `min` total_out_features c).

(** Modelled from the spec: re-partitioning cuts the concatenated unit
    features at the block boundaries. *)
Definition repartition (c : HBPParallel) (sizes : list nat) : HBPParallel :=
  {| in_features := in_features c;
     children := reshape sizes (mjoin (children c)) |}.

(** Modelled from the spec: [merge] re-partitions into the blocks of
    [compute_out_features_list]. *)
Definition merge (c : HBPParallel) (target_block_count : nat) : HBPParallel :=
  repartition c (compute_out_features_list c target_block_count).

(** Modelled from the spec: [split] fails with the size-mismatch error when
    the sizes do not sum to [total_out_features]. *)
Definition split (c : HBPParallel) (explicit_sizes : list nat)
  : result HBPParallel :=
  if bool_decide (sum_list explicit_sizes = total_out_features c) then
    Ok (repartition c explicit_sizes)
  else Raise (SizeMismatch "block sizes do not sum to total_out_features").

(** *** Matrices, entry by entry *)

Abbreviation matrix := (list (list Z)).

(** [M[i][j]], zero outside the matrix. *)
Definition entry (M : matrix) (i j : nat) : Z := get (default [] (M !! i)) j.

Definition tabulate (n m : nat) (f : nat -> nat -> Z) : matrix :=
  (fun i => f i <$> seq 0 m) <$> seq 0 n.

Definition eye (n : nat) : matrix :=
  tabulate n n (fun i j => if bool_decide (i = j) then 1 else 0).

Definition scale (a : Z) (n m : nat) (M : matrix) : matrix :=
  tabulate n m (fun i j => a * entry M i j).

(** *** Forward pass and Hessian backpropagation *)

(** Modelled from the spec: the weight matrix of a linear sibling, row by
    row. *)
Definition weight (layer : HBPLinear) : matrix := row <$> layer.

(** Modelled from the spec: the forward mapping of a linear layer, applied
    to one input (the batch of the test has one example). *)
Definition forward_linear (layer : HBPLinear) (x : list Z) : list Z :=
  (fun u => dot (row u) x + offset u) <$> layer.

(** Modelled from the spec: the siblings consume the same input and their
    outputs are concatenated along the feature axis. *)
Definition forward (c : HBPParallel) (x : list Z) : list Z :=
  mjoin ((fun layer => forward_linear layer x) <$> children c).

(** [example_loss] of the test: the sum over the squared entries. *)
Definition example_loss (tensor : list Z) : Z :=
  foldr Z.add 0 ((fun v => v ^ 2) <$> tensor).

(** Modelled from the spec: a sign-annotated square-root factor, as the
    list of its vectors [s_i], each with its sign [sigma_i].  It represents
    the curvature [sum_i sigma_i * s_i s_i^T]. *)
Abbreviation sqrt_factor := (list (Z * list Z)).

(** Modelled from the spec: the curvature matrix of size [n x n] that a
    square-root factor represents. *)
Definition reconstruct (n : nat) (factor : sqrt_factor) : matrix :=
  tabulate n n (fun i j =>
    foldr (fun p acc => p.1 * get p.2 i * get p.2 j + acc) 0 factor).

(** Modelled from the spec: [jac_t_mat_prod] of a linear layer with [n]
    inputs on one vector of a factor, the product with the transposed
    Jacobian; the Jacobian of an affine layer is its weight matrix. *)
Definition jac_t_mat_prod (n : nat) (layer : HBPLinear) (v : list Z) : list Z :=
  (fun i => big_sum (out_features layer) (fun k => entry (weight layer) k i * get v k))
    <$> seq 0 n.

(** Modelled from the spec: each sibling receives the slice of the upstream
    curvature factor that corresponds to its own output features, and runs
    its own derivative provider on it. *)
Fixpoint sibling_contributions (n : nat) (layers : list HBPLinear) (v : list Z)
  : list (list Z) :=
  match layers with
  | [] => []
  | layer :: rest =>
      jac_t_mat_prod n layer (take (out_features layer) v)
      :: sibling_contributions n rest (drop (out_features layer) v)
  end.

(** Modelled from the spec: the composite forwards to its input the sum of
    the siblings' input-side contributions, vector by vector of the factor;
    the signs are those of the upstream factor. *)
Definition backward_hessian (c : HBPParallel) (output_hessian : sqrt_factor)
  : sqrt_factor :=
  (fun p => (p.1, vsum (in_features c)
                    (sibling_contributions (in_features c) (children c) p.2)))
    <$> output_hessian.

(** Modelled from the spec: the brute-force Hessian of [f] at [x], entry by
    entry as the mixed second difference with unit steps.  For a function
    of degree two in [x] (the losses of the test and of the examples below)
    it is the matrix of second partial derivatives. *)
Definition step (i : nat) (x : list Z) : list Z := alter (fun v => v + 1) i x.

Definition exact_hessian (f : list Z -> Z) (n : nat) (x : list Z) : matrix :=
  tabulate n n (fun i j =>
    f (step j (step i x)) - f (step i x) - f (step j x) + f x).

End parallel.

(** ** test/core/derivatives/derivatives_test.py

    The problems, the two implementations of the derivatives that the tests
    compare and [check_sizes_and_values] are imported from modules that are
    not among the sources: they are the variables of the sections below.
    What is embedded is what the file itself does with them. *)

Module derivatives_test.

(** How pytest reports a test: passed (with the warnings issued), skipped
    (with the reason), failed (an assertion, or [pytest.fail]), or ended by
    another exception. *)
Inductive outcome : Type :=
| Passed (warnings : list string)
| Skipped (reason : string)
| Failed (message : string)
| Error (e : exn).

Section parametrization.

Context {problem : Type}.
Variable make_id : problem -> string.
Variables is_loss has_weight has_bias : problem -> bool.
Variable PROBLEMS : list problem.

Definition IDS : list string := make_id <$> PROBLEMS.

Definition NO_LOSS_PROBLEMS : list problem :=
  List.filter (fun problem => negb (is_loss problem)) PROBLEMS.
Definition NO_LOSS_IDS : list string := make_id <$> NO_LOSS_PROBLEMS.

Definition LOSS_PROBLEMS : list problem :=
  List.filter (fun problem => is_loss problem) PROBLEMS.
Definition LOSS_IDS : list string := make_id <$> LOSS_PROBLEMS.

(** [for problem, problem_id in zip(PROBLEMS, IDS):
       if has(problem):
           problems.append(problem); ids.append(problem_id)],
    started on two empty lists. *)
Definition select_problems (has : problem -> bool) : list problem * list string :=
  foldl (fun acc item =>
           if has item.1 then (acc.1 ++ [item.1], acc.2 ++ [item.2]) else acc)
    ([], []) (zip PROBLEMS IDS).

Definition PROBLEMS_WITH_WEIGHTS : list problem := (select_problems has_weight).1.
Definition IDS_WITH_WEIGHTS : list string := (select_problems has_weight).2.
Definition PROBLEMS_WITH_BIAS : list problem := (select_problems has_bias).1.
Definition IDS_WITH_BIAS : list string := (select_problems has_bias).2.

End parametrization.

Section hessian_is_zero.

Context {problem : Type}.
(** [problem.input.numel()] and [problem.is_loss()] *)
Variable input_numel : problem -> nat.
Variable is_loss : problem -> bool.
(** [BackpackDerivatives(problem).hessian_is_zero()] and
    [AutogradDerivatives(problem).hessian_is_zero()] *)
Variables backpack_hessian_is_zero autograd_hessian_is_zero : problem -> bool.

(** A fixture hands a value to the test ([inl]) or skips the test with a
    reason ([inr]). *)
Definition small_input_problem (instantiated_problem : problem)
    (max_input_numel : nat) : problem + string :=
  if bool_decide (max_input_numel < input_numel instantiated_problem)%nat then
    inr ("Input is too large:" +:+ " "
         +:+ pretty (input_numel instantiated_problem)
         +:+ " > " +:+ pretty max_input_numel)
  else inl instantiated_problem.

Definition no_loss_problem (small_input_problem : problem) : problem + string :=
  if is_loss small_input_problem then inr "Only required for non-loss layers."
  else inl small_input_problem.

Definition test_hessian_is_zero (no_loss_problem : problem) : outcome :=
  let backpack_res := backpack_hessian_is_zero no_loss_problem in
  let autograd_res := autograd_hessian_is_zero no_loss_problem in
  if autograd_res && negb backpack_res then
    Passed ["Autograd Hessian diagonal is zero for this input  while BackPACK implementation implies inputs with non-zero Hessian."]
  else if bool_decide (backpack_res = autograd_res) then Passed []
  else Failed "AssertionError".

(** [test_hessian_is_zero] on one parameter of the fixture
    [instantiated_problem], through the fixtures that it requests, with the
    default [max_input_numel]. *)
Definition run_test_hessian_is_zero (instantiated_problem : problem) : outcome :=
  match small_input_problem instantiated_problem 100 with
  | inr reason => Skipped reason
  | inl small =>
      match no_loss_problem small with
      | inr reason => Skipped reason
      | inl p => test_hessian_is_zero p
      end
  end.

End hessian_is_zero.

Section should_fail.

(** The tests act on the problem and on the libraries under test: an action
    maps the state of that world to the state it leaves behind and to what
    it returns or raises. *)
Context {problem world value : Type}.

Definition action (A : Type) : Type := world -> world * result A.

Definition abind {A B} (c : action A) (k : A -> action B) : action B :=
  fun w => match c w with
           | (w', Ok a) => k a w'
           | (w', Raise e) => (w', Raise e)
           end.

(** [problem.set_up()], [problem.tear_down()],
    [BackpackDerivatives(problem).sum_hessian()],
    [AutogradDerivatives(problem).sum_hessian()] and
    [check_sizes_and_values] *)
Variables set_up tear_down : problem -> action unit.
Variables backpack_sum_hessian autograd_sum_hessian : problem -> action value.
Variable check_sizes_and_values : value -> value -> action unit.

Definition test_sum_hessian (problem0 : problem) : action unit :=
  abind (set_up problem0) (fun _ =>
  abind (backpack_sum_hessian problem0) (fun backpack_res =>
  abind (autograd_sum_hessian problem0) (fun autograd_res =>
  abind (check_sizes_and_values autograd_res backpack_res) (fun _ =>
  tear_down problem0)))).

(** [with pytest.raises(ValueError): body] *)
Definition pytest_raises_ValueError (body : action unit) : world -> world * outcome :=
  fun w => match body w with
           | (w', Raise (ValueError _)) => (w', Passed [])
           | (w', Raise e) => (w', Error e)
           | (w', Ok _) => (w', Failed "DID NOT RAISE <class 'ValueError'>")
           end.

Definition test_sum_hessian_should_fail (problem0 : problem)
  : world -> world * outcome :=
  pytest_raises_ValueError (test_sum_hessian problem0).

End should_fail.

End derivatives_test.

(** ** Vocabulary of the frame properties of conv2d.py, and examples *)

Section conv2d_frames.
Import conv2d.

(** What a hook may change in a module: nothing but the attributes, named
    by [names], attached to its parameters. *)
Definition touches_only (names : list string) (p p' : nnParameter) : Prop :=
  data p' = data p /\ requires_grad p' = requires_grad p /\
  forall name, name ∉ names -> attrs p' !! name = attrs p !! name.

Definition same_configuration (m m' : Conv2d) : Prop :=
  in_channels m' = in_channels m /\ out_channels m' = out_channels m /\
  kernel_size m' = kernel_size m /\ stride m' = stride m /\
  padding m' = padding m /\ dilation m' = dilation m /\
  groups m' = groups m /\ buffers m' = buffers m.

Definition frame (names : bool -> list string) (m m' : Conv2d) : Prop :=
  same_configuration m m' /\
  touches_only (names (requires_grad (weight m))) (weight m) (weight m') /\
  match bias m, bias m' with
  | None, None => True
  | Some b, Some b' => touches_only (names (requires_grad b)) b b'
  | _, _ => False
  end.

Definition preserves {A} (names : bool -> list string) (c : hook A) : Prop :=
  forall m, frame names m (c m).1.

(** The attribute names the backward hook may attach to a parameter whose
    [requires_grad] flag is [rg], in the context [CTX]. *)
Definition attached (CTX : config.Context) (rg : bool) : list string :=
  (if config.is_active CTX config.BATCH_GRAD && rg then ["grad_batch"] else []) ++
  (if config.is_active CTX config.SUM_GRAD_SQUARED && rg
   then ["sum_grad_squared"] else []).

Definition may_attach (CTX : config.Context) (p : nnParameter) (name : string) : Prop :=
  (name = "grad_batch" /\ config.is_active CTX config.BATCH_GRAD = true
     /\ requires_grad p = true) \/
  (name = "sum_grad_squared" /\ config.is_active CTX config.SUM_GRAD_SQUARED = true
     /\ requires_grad p = true).

(** What clearing leaves of a parameter: the attribute [name] is gone and
    nothing else has changed. *)
Definition cleared (name : string) (p p' : nnParameter) : Prop :=
  data p' = data p /\ requires_grad p' = requires_grad p /\
  attrs p' = delete name (attrs p).

(** A layer with two output channels and a 2 x 2 kernel, and a batch of two
    3 x 3 inputs with its output gradient. *)
Definition example_parameter (t : tensor) : nnParameter :=
  {| data := t; requires_grad := true; attrs := ∅ |}.

Definition example_layer : Conv2d :=
  {| in_channels := 1; out_channels := 2; kernel_size := (2, 2)%nat;
     stride := (1, 1)%nat; padding := (0, 0)%nat; dilation := (1, 1)%nat;
     groups := 1;
     weight := example_parameter (Tensor [2; 1; 2; 2]%nat [1; 0; 0; 1; 1; 1; 1; 1]);
     bias := Some (example_parameter (Tensor [2%nat] [0; 0]));
     buffers := ∅ |}.

Definition example_input : tensor :=
  Tensor [2; 1; 3; 3]%nat [1; 2; 3; 4; 5; 6; 7; 8; 9; 1; 0; 0; 0; 1; 0; 0; 0; 1].

Definition example_grad_output : tensor :=
  Tensor [2; 2; 2; 2]%nat [1; 1; 1; 1; 1; 0; 0; 0; 2; 0; 0; 1; 0; 1; 0; 0].

Definition example_layer_after_forward : Conv2d :=
  (store_input [example_input] example_layer).1.

(** The same layer on the first example alone. *)
Definition single_input : tensor :=
  Tensor [1; 1; 3; 3]%nat [1; 2; 3; 4; 5; 6; 7; 8; 9].

Definition single_grad_output : tensor :=
  Tensor [1; 2; 2; 2]%nat [1; 1; 1; 1; 1; 0; 0; 0].

Definition single_layer_after_forward : Conv2d :=
  (store_input [single_input] example_layer).1.

End conv2d_frames.

(** ** Vocabulary for the algebra of the hooks of conv2d.py *)

Section conv2d_hook_vocabulary.
Import conv2d.

(** The parameter [p] with the attributes [d] attached, over those it has. *)
Definition with_attrs (d : gmap string tensor) (p : nnParameter) : nnParameter :=
  {| data := data p; requires_grad := requires_grad p; attrs := d ∪ attrs p |}.

(** The module with [d.1] attached to its weight and [d.2] to its bias. *)
Definition attach (d : gmap string tensor * gmap string tensor) (m : Conv2d)
  : Conv2d :=
  with_weight (with_attrs d.1) (with_bias (with_attrs d.2) m).

(** Two modules that differ at most in the attributes attached to their
    parameters. *)
Definition alike (m m' : Conv2d) : Prop :=
  same_configuration m m' /\
  data (weight m') = data (weight m) /\
  requires_grad (weight m') = requires_grad (weight m) /\
  match bias m, bias m' with
  | Some b, Some b' => data b' = data b /\ requires_grad b' = requires_grad b
  | None, None => True
  | _, _ => False
  end.

(** A hook that does nothing but attach attributes to the parameters, and
    whose attributes and result do not depend on the attributes that the
    parameters carry already. *)
Definition attaches (c : hook unit) : Prop :=
  exists (d : Conv2d -> gmap string tensor * gmap string tensor)
         (r : Conv2d -> result unit),
    (forall m m', alike m m' -> d m' = d m /\ r m' = r m) /\
    forall m, c m = (attach (d m) m, r m).

(** The parameter [p] without the attribute [name]. *)
Definition without_attr (name : string) (p : nnParameter) : nnParameter :=
  {| data := data p; requires_grad := requires_grad p;
     attrs := delete name (attrs p) |}.

(** The context in which both extensions are active. *)
Definition both_extensions : config.Context :=
  {| config.active_exts := {[config.BATCH_GRAD; config.SUM_GRAD_SQUARED]};
     config._backpropagated_sqrt_h := [];
     config._backpropagated_sqrt_h_signs := [] |}.

(** [example_layer_after_forward] with an artifact of an earlier pass. *)
Definition example_layer_with_stale_artifact : Conv2d :=
  with_weight (setattr "grad_batch" example_input) example_layer_after_forward.

(** A layer of two groups on two input channels, after the forward pass on
    a batch of two 3 x 3 inputs. *)
Definition grouped_input : tensor :=
  Tensor [2; 2; 3; 3]%nat (replicate 36 1).

Definition grouped_layer_after_forward : Conv2d :=
  (store_input [grouped_input]
     {| in_channels := 2; out_channels := 2; kernel_size := (2, 2)%nat;
        stride := (1, 1)%nat; padding := (0, 0)%nat; dilation := (1, 1)%nat;
        groups := 2;
        weight := example_parameter (Tensor [2; 1; 2; 2]%nat [1; 0; 0; 1; 1; 1; 1; 1]);
        bias := None;
        buffers := ∅ |}).1.

(** A layer of two groups on one input channel, whose weight has no input
    channel, after the forward pass on an empty batch. *)
Definition empty_input : tensor := Tensor [0; 1; 3; 3]%nat [].

Definition empty_grouped_layer_after_forward : Conv2d :=
  (store_input [empty_input]
     {| in_channels := 1; out_channels := 2; kernel_size := (2, 2)%nat;
        stride := (1, 1)%nat; padding := (0, 0)%nat; dilation := (1, 1)%nat;
        groups := 2;
        weight := example_parameter (Tensor [2; 0; 2; 2]%nat []);
        bias := None;
        buffers := ∅ |}).1.

End conv2d_hook_vocabulary.

(** ** Vocabulary and examples for the parallel composite *)

Section parallel_vocabulary.
Import parallel.

(** The number of blocks of the larger size in [merge(k)]. *)
Definition larger_blocks (T k : nat) : nat :=
  if bool_decide ((T <= k)%nat) then T else (T `mod` k)%nat.

(** The feature read off the end of a list of features: all zero. *)
Definition no_feature : unit_feature := {| row := []; offset := 0 |}.

(** The curvature [2 * eye(T)] of the test. *)
Definition twice_eye (T : nat) : matrix := scale 2 T T (eye T).

(** A loss of degree two in the outputs, [sum_k sum_l A[k][l] * y[k] * y[l]]. *)
Definition quadratic_loss (A : matrix) (T : nat) (y : list Z) : Z :=
  big_sum T (fun k => big_sum T (fun l => entry A k l * get y k * get y l)).

(** The curvature [2 * eye(T)] of the test as a square-root factor with
    positive signs: every unit vector, twice. *)
Definition unit_vector (T k : nat) : list Z :=
  (fun l => if bool_decide (l = k) then 1 else 0) <$> seq 0 T.

Definition twice_eye_factor (T : nat) : sqrt_factor :=
  (fun k => (1, unit_vector T k)) <$> (seq 0 T ++ seq 0 T).

(** The coefficient of input [i] in output feature [k]. *)
Definition coefficient (units : list unit_feature) (k i : nat) : Z :=
  get (row (default no_feature (units !! k))) i.

(** The composite of [test_splitting_into_blocks]: a linear layer with ten
    outputs as one block, and its split into blocks of sizes 3, 2 and 5. *)
Definition test_linear : HBPLinear :=
  (fun k => {| row := replicate 20 (Z.of_nat k); offset := 1 |}) <$> seq 0 10.

Definition test_parallel : HBPParallel := from_module 20 test_linear.

Definition test_parallel2 : HBPParallel := repartition test_parallel [3; 2; 5]%nat.

(** Two siblings with one output each on a one-dimensional input, and a
    loss that couples their outputs. *)
Definition coupled_composite : HBPParallel :=
  {| in_features := 1;
     children := [[{| row := [1]; offset := 0 |}]; [{| row := [1]; offset := 0 |}]] |}.

Definition product_coefficients : matrix := [[0; 1]; [0; 0]].

(** The curvature [[0, 1], [1, 0]] of the loss [y0 * y1] as a square-root
    factor: [(e0 + e1)(e0 + e1)^T - e0 e0^T - e1 e1^T]. *)
Definition product_factor : sqrt_factor :=
  [(1, [1; 1]); (-1, [1; 0]); (-1, [0; 1])].

(** Three outputs of a two-dimensional input in two siblings. *)
Definition example_composite : HBPParallel :=
  {| in_features := 2;
     children := [[{| row := [1; 2]; offset := 3 |}];
                  [{| row := [0; 1]; offset := 0 |};
                   {| row := [5; -1]; offset := 2 |}]] |}.

End parallel_vocabulary.

(** * Strategy registry: validation fails closed *)

Section strategy_facts.

(** A validation written as the three classes write theirs. *)
Variable choices : list string.
Variable message : string.

Let check (strategy : string) : result unit :=
  if negb (py_in strategy choices) then Raise (AttributeError message)
  else Ok tt.

Lemma check_raises strategy :
  raises_UnknownStrategy (check strategy) <-> strategy ∉ choices.
Proof.
  unfold check, py_in, raises_UnknownStrategy.
  case_bool_decide; simpl; split; intros H'; try done.
  - by destruct H'.
  - eauto.
Qed.

Lemma check_succeeds strategy :
  check strategy = Ok tt <-> strategy ∈ choices.
Proof.
  unfold check, py_in.
  case_bool_decide; simpl; split; intros H'; done.
Qed.

(** A predicate that validates first and then answers. *)
Lemma guarded_raises (answer : bool) strategy :
  raises_UnknownStrategy (_ ← check strategy; Ok answer) <-> strategy ∉ choices.
Proof.
  rewrite <- check_raises. unfold raises_UnknownStrategy.
  destruct (check strategy) as [[]|e]; simpl; split; intros [msg H'];
    try discriminate; exists msg; congruence.
Qed.

Lemma guarded_succeeds (answer : bool) strategy :
  (_ ← check strategy; Ok answer) = Ok answer <-> strategy ∈ choices.
Proof.
  rewrite <- check_succeeds.
  destruct (check strategy) as [[]|e]; simpl; split; intros H'; done.
Qed.

End strategy_facts.

(** C7.  In each of the three strategy enumerations, [check_exists] and every
    derived predicate ([is_sqrt], [is_batch_average],
    [should_average_param_jac]) raise the unknown-strategy error
    (Python's [AttributeError]) exactly for the labels outside the
    enumeration's [CHOICES]; for a label inside, validation returns and each
    predicate returns its answer (the comparison with the variant it names). *)
Theorem strategies_fail_closed (strategy : string) :
  (raises_UnknownStrategy (LossHessianStrategy.check_exists strategy)
     <-> strategy ∉ LossHessianStrategy.CHOICES) /\
  (LossHessianStrategy.check_exists strategy = Ok tt
     <-> strategy ∈ LossHessianStrategy.CHOICES) /\
  (raises_UnknownStrategy (BackpropStrategy.check_exists strategy)
     <-> strategy ∉ BackpropStrategy.CHOICES) /\
  (BackpropStrategy.check_exists strategy = Ok tt
     <-> strategy ∈ BackpropStrategy.CHOICES) /\
  (raises_UnknownStrategy (BackpropStrategy.is_sqrt strategy)
     <-> strategy ∉ BackpropStrategy.CHOICES) /\
  (BackpropStrategy.is_sqrt strategy
     = Ok (bool_decide (strategy = BackpropStrategy.SQRT))
     <-> strategy ∈ BackpropStrategy.CHOICES) /\
  (raises_UnknownStrategy (BackpropStrategy.is_batch_average strategy)
     <-> strategy ∉ BackpropStrategy.CHOICES) /\
  (BackpropStrategy.is_batch_average strategy
     = Ok (bool_decide (strategy = BackpropStrategy.BATCH_AVERAGE))
     <-> strategy ∈ BackpropStrategy.CHOICES) /\
  (raises_UnknownStrategy (ExpectationApproximation.check_exists strategy)
     <-> strategy ∉ ExpectationApproximation.CHOICES) /\
  (ExpectationApproximation.check_exists strategy = Ok tt
     <-> strategy ∈ ExpectationApproximation.CHOICES) /\
  (raises_UnknownStrategy (ExpectationApproximation.should_average_param_jac strategy)
     <-> strategy ∉ ExpectationApproximation.CHOICES) /\
  (ExpectationApproximation.should_average_param_jac strategy
     = Ok (bool_decide (strategy = ExpectationApproximation.CHEN))
     <-> strategy ∈ ExpectationApproximation.CHOICES).
Proof.
  unfold LossHessianStrategy.check_exists, BackpropStrategy.check_exists,
    BackpropStrategy.is_sqrt, BackpropStrategy.is_batch_average,
    BackpropStrategy.check_exists, ExpectationApproximation.check_exists,
    ExpectationApproximation.should_average_param_jac,
    ExpectationApproximation.check_exists.
  split_and!;
    first [ apply guarded_raises | apply guarded_succeeds
          | apply check_raises | apply check_succeeds ].
Qed.

(** * Tensors: rows and sums *)

Section tensor_facts.

Lemma length_rows b N d : length (rows b N d) = b.
Proof. unfold rows. by rewrite length_reshape, length_replicate. Qed.

Lemma length_vsum N rs :
  Forall (fun r => length r = N) rs -> length (vsum N rs) = N.
Proof.
  unfold vsum. induction 1 as [|r rs Hr _ IH]; simpl.
  - by rewrite length_replicate.
  - rewrite length_zip_with. lia.
Qed.

Lemma get_zip_with_add u v p :
  length u = length v -> get (zip_with Z.add u v) p = get u p + get v p.
Proof.
  unfold get. revert v p. induction u as [|a u IH]; intros [|b v] p Hl;
    simpl in *; try lia; try done.
  destruct p as [|p]; simpl; [done|]. apply IH. lia.
Qed.

Lemma get_replicate_zero N p : get (replicate N 0) p = 0.
Proof.
  unfold get. destruct (replicate N 0 !! p) as [z|] eqn:E; [|done].
  by apply lookup_replicate in E as [-> _].
Qed.

Lemma get_vsum N rs p :
  Forall (fun r => length r = N) rs ->
  get (vsum N rs) p = foldr (fun r acc => get r p + acc) 0 rs.
Proof.
  induction 1 as [|r rs Hr Hrs IH]; simpl.
  - apply get_replicate_zero.
  - change (vsum N (r :: rs)) with (zip_with Z.add r (vsum N rs)).
    rewrite get_zip_with_add, IH; [done|].
    by rewrite (length_vsum N rs).
Qed.

Lemma get_take N d p : (p < N)%nat -> get (take N d) p = get d p.
Proof. intros Hp. unfold get. by rewrite lookup_take_lt. Qed.

Lemma get_drop N d p : get (drop N d) p = get d (N + p).
Proof. unfold get. by rewrite lookup_drop. Qed.

Lemma big_sum_ext n f g :
  (forall k, (k < n)%nat -> f k = g k) -> big_sum n f = big_sum n g.
Proof.
  revert f g. induction n as [|n IH]; intros f g H; simpl; [done|].
  rewrite (H 0%nat) by lia. f_equal. apply IH. intros k Hk. apply H. lia.
Qed.

Lemma length_join_same {A} (ls : list (list A)) n :
  Forall (fun l => length l = n) ls -> length (mjoin ls) = (length ls * n)%nat.
Proof. intros H. rewrite length_join. by apply sum_list_fmap_same. Qed.

End tensor_facts.

(** * Convolution: per-example statistics *)

Section conv2d_statistics.
Import conv2d.

Lemma dot_comm u v : dot u v = dot v u.
Proof.
  unfold dot. revert v.
  induction u as [|a u IH]; intros [|b v]; simpl; try done.
  rewrite IH. lia.
Qed.

Lemma broadcast_comm a b : broadcast a b = broadcast b a.
Proof.
  unfold broadcast. repeat case_bool_decide; subst; try done; congruence.
Qed.

Lemma broadcast_same a : broadcast a a = Some a.
Proof. unfold broadcast. by rewrite bool_decide_eq_true_2. Qed.

Lemma broadcast_Some a b c :
  broadcast a b = Some c <->
  (a = b /\ c = a) \/ (a = 1%nat /\ c = b) \/ (b = 1%nat /\ c = a).
Proof.
  unfold broadcast. repeat case_bool_decide; split; intros Hc;
    try (injection Hc as <-); subst; try done; auto;
    destruct Hc as [[? ?]|[[? ?]|[? ?]]]; subst; done.
Qed.

Lemma einsum_operands_swap A B :
  einsum_blj_bkj_bkl A B = einsum_bml_bkl_bmk B A.
Proof.
  unfold einsum_blj_bkj_bkl, einsum_bml_bkl_bmk.
  destruct (size A) as [|b1 [|l [|j1 [|? ?]]]], (size B) as [|b2 [|k [|j2 [|? ?]]]];
    try reflexivity.
  rewrite (broadcast_comm b2 b1), (broadcast_comm j2 j1).
  destruct (broadcast b1 b2) as [b|]; [|done].
  destruct (broadcast j1 j2) as [j|]; [|done].
  do 3 f_equal.
  rewrite <- zip_with_flip. apply zip_with_ext; [|done..].
  intros Bb Ab. unfold flip. f_equal.
  apply list_fmap_ext; intros _ Bk _.
  apply list_fmap_ext; intros _ Al _. apply dot_comm.
Qed.

Lemma bind_Ok {A B} (r : result A) (k : A -> result B) b :
  (r ≫= k) = Ok b <-> exists a, r = Ok a /\ k a = Ok b.
Proof.
  destruct r as [a|e]; simpl; split.
  - intros H. by exists a.
  - by intros (a' & [= ->] & H).
  - done.
  - by intros (a' & [=] & _).
Qed.

Lemma view_Ok t s t' :
  view t s = Ok t' <-> numel_of s = numel t /\ t' = Tensor s (storage t).
Proof.
  unfold view. case_bool_decide; split; try done.
  - by intros [= <-].
  - by intros [_ ->].
  - by intros [? _].
Qed.

Lemma view_infer_last_Ok t a b t' :
  view_infer_last t a b = Ok t' ->
  (0 < a)%nat /\ (0 < b)%nat /\ size t' = [a; b; (numel t `div` (a * b))%nat].
Proof.
  unfold view_infer_last. repeat case_bool_decide; try done.
  intros [= <-]. simpl. split_and!; [nia|nia|done].
Qed.

Lemma view_infer_last_elements t a b t' :
  view_infer_last t a b = Ok t' ->
  numel t = (a * b * (numel t `div` (a * b)))%nat.
Proof.
  unfold view_infer_last. repeat case_bool_decide; try done.
  intros _. by apply Nat.Div0.div_exact.
Qed.

Lemma view_infer_last_succeeds t a b J :
  (0 < a * b)%nat -> numel t = (a * b * J)%nat ->
  exists t', view_infer_last t a b = Ok t' /\ size t' = [a; b; J].
Proof.
  intros Hab Hn. unfold view_infer_last.
  rewrite bool_decide_eq_false_2 by lia.
  replace (numel t) with (J * (a * b))%nat by lia.
  rewrite bool_decide_eq_true_2 by (apply Nat.Div0.mod_mul).
  rewrite Nat.div_mul by lia. by eexists.
Qed.

(** When the contraction returns, and the size of what it returns. *)
Lemma einsum_blj_bkj_bkl_size A B E :
  einsum_blj_bkj_bkl A B = Ok E ->
  exists b1 l j1 b2 k j2 b j,
    size A = [b1; l; j1] /\ size B = [b2; k; j2] /\
    broadcast b1 b2 = Some b /\ broadcast j1 j2 = Some j /\ size E = [b; k; l].
Proof.
  unfold einsum_blj_bkj_bkl.
  destruct (size A) as [|b1 [|l [|j1 [|? ?]]]], (size B) as [|b2 [|k [|j2 [|? ?]]]];
    try done.
  destruct (broadcast b1 b2) as [b|] eqn:Hb; [|done].
  destruct (broadcast j1 j2) as [j|] eqn:Hj; [|done].
  intros [= <-]. by exists b1, l, j1, b2, k, j2, b, j.
Qed.

Lemma einsum_blj_bkj_bkl_succeeds A B b1 l j1 b2 k j2 :
  size A = [b1; l; j1] -> size B = [b2; k; j2] ->
  is_Some (broadcast b1 b2) -> is_Some (broadcast j1 j2) ->
  succeeds (einsum_blj_bkj_bkl A B).
Proof.
  intros HA HB [b Hb] [j Hj]. unfold einsum_blj_bkj_bkl, succeeds.
  rewrite HA, HB, Hb, Hj. by eexists.
Qed.

Lemma sum_dim_0_pow2 (t : tensor) b rest :
  size t = b :: rest ->
  sum_dim 0 (pow2 t)
  = Ok (Tensor rest
          (mjoin ((fun blk => vsum (numel_of rest) (rows b (numel_of rest) blk))
                    <$> rows 1 (b * numel_of rest)
                          ((fun x => x ^ 2) <$> storage t)))).
Proof. intros Hs. unfold sum_dim, pow2. simpl. by rewrite Hs. Qed.

Lemma vsum_0 rs : vsum 0 rs = [].
Proof.
  induction rs as [|r rs IH]; [done|].
  change (vsum 0 (r :: rs)) with (zip_with Z.add r (vsum 0 rs)).
  rewrite IH. by destruct r.
Qed.

(** The per-example weight gradient is the contraction, viewed with the
    size of the weight behind the batch axis. *)
Lemma weight_grad_batch_Ok self grad_output g :
  _compute_weight_grad_batch self grad_output = Ok g <->
  exists E batch_size,
    weight_contraction self grad_output = Ok E /\
    size_at grad_output 0 = Ok batch_size /\
    view E (batch_size :: size (data (weight self))) = Ok g.
Proof.
  unfold _compute_weight_grad_batch, weight_contraction.
  destruct (size_at grad_output 0) as [B|e]; simpl; [|naive_solver].
  destruct (get_input self) as [input|e]; simpl; [|naive_solver].
  destruct (unfold self input) as [X|e]; simpl; [|naive_solver].
  destruct (view_infer_last grad_output B (out_channels self)) as [dY|e]; simpl;
    [|naive_solver].
  destruct (einsum_blj_bkj_bkl X dY) as [E|e]; simpl; naive_solver.
Qed.

(** The weight statistic is the sum over the batch axis of the elementwise
    square of the same contraction, viewed with the size of the weight. *)
Lemma weight_sgs_Ok self grad_output s :
  _compute_weight_sgs self grad_output = Ok s <->
  exists E s0,
    weight_contraction self grad_output = Ok E /\
    sum_of_squares_over_batch E = Ok s0 /\
    view s0 (size (data (weight self))) = Ok s.
Proof.
  unfold _compute_weight_sgs, weight_contraction, sum_of_squares_over_batch.
  destruct (get_input self) as [input|e]; simpl;
    [|destruct (size_at grad_output 0); naive_solver].
  destruct (unfold self input) as [X|e]; simpl;
    [|destruct (size_at grad_output 0); naive_solver].
  destruct (size_at grad_output 0) as [B|e]; simpl; [|naive_solver].
  destruct (view_infer_last grad_output B (out_channels self)) as [dY|e]; simpl;
    [|naive_solver].
  rewrite <- einsum_operands_swap.
  destruct (einsum_blj_bkj_bkl X dY) as [E|e]; simpl; [|naive_solver].
  destruct (sum_dim 0 (pow2 E)) as [s0|e] eqn:Hs0; simpl; split.
  - intros Hv. by exists E, s0.
  - intros (? & ? & [= <-] & Hs1 & ?). rewrite Hs0 in Hs1. by injection Hs1 as <-.
  - done.
  - intros (? & ? & [= <-] & Hs1 & _). by rewrite Hs0 in Hs1.
Qed.

(** A batched result of [Unfold] comes from a batched input. *)
Lemma Unfold_batched ks d p st x X N M L :
  Unfold ks d p st x = Ok X -> size X = [N; M; L] ->
  exists C H W, size x = [N; C; H; W].
Proof.
  unfold Unfold. repeat (case_bool_decide; simpl; try done).
  destruct (size x) as [|a [|b [|c [|d' [|? ?]]]]]; try done;
    repeat (case_bool_decide; simpl; try done); intros [= <-]; simpl; try done.
  intros [= <- _ _]. by eexists _, _, _.
Qed.

(** The sizes that the contraction meets. *)
Lemma weight_contraction_inv self grad_output E :
  weight_contraction self grad_output = Ok E ->
  exists x X N M L B J b,
    get_input self = Ok x /\ unfold self x = Ok X /\ size X = [N; M; L] /\
    size_at grad_output 0 = Ok B /\ (0 < B * out_channels self)%nat /\
    numel grad_output = (B * out_channels self * J)%nat /\
    broadcast N B = Some b /\ is_Some (broadcast L J) /\
    size E = [b; out_channels self; M].
Proof.
  unfold weight_contraction. intros HE.
  apply bind_Ok in HE as (B & HB & HE).
  apply bind_Ok in HE as (x & Hx & HE).
  apply bind_Ok in HE as (X & HX & HE).
  apply bind_Ok in HE as (dY & HdY & HE).
  apply einsum_blj_bkj_bkl_size in HE
    as (N & M & L & B' & K & J & b & j & HsX & HsY & Hb & Hj & HsE).
  destruct (view_infer_last_Ok _ _ _ _ HdY) as (HB0 & HK0 & HsY').
  pose proof (view_infer_last_elements _ _ _ _ HdY) as Hn.
  rewrite HsY' in HsY. injection HsY as <- <- HJ. rewrite HJ in Hn.
  exists x, X, N, M, L, B, J, b. split_and!; eauto. nia.
Qed.

Lemma weight_contraction_succeeds self grad_output x X N M L B J :
  get_input self = Ok x -> unfold self x = Ok X -> size X = [N; M; L] ->
  size_at grad_output 0 = Ok B -> (0 < B * out_channels self)%nat ->
  numel grad_output = (B * out_channels self * J)%nat ->
  is_Some (broadcast N B) -> is_Some (broadcast L J) ->
  succeeds (weight_contraction self grad_output).
Proof.
  intros Hx HX HsX HB HBK Hn Hb Hj. unfold weight_contraction.
  rewrite HB, Hx. simpl. rewrite HX. simpl.
  destruct (view_infer_last_succeeds grad_output B (out_channels self) J HBK Hn)
    as (dY & -> & HsY).
  simpl. by eapply einsum_blj_bkj_bkl_succeeds.
Qed.

Lemma weight_contraction_size self grad_output E :
  weight_contraction self grad_output = Ok E ->
  exists b M, size E = [b; out_channels self; M].
Proof.
  intros (x & X & N & M & L & B & J & b & _ & _ & _ & _ & _ & _ & _ & _ & HsE)
    %weight_contraction_inv.
  by exists b, M.
Qed.

(** Viewing a tensor with another size behind a batch axis and summing the
    squares over the batch axis is summing the squares over its own first
    axis and viewing the result with that size, whenever all of it
    returns. *)
Lemma sum_of_squares_view E b rest B w g s0 s :
  size E = b :: rest ->
  view E (B :: w) = Ok g ->
  sum_of_squares_over_batch E = Ok s0 ->
  view s0 w = Ok s ->
  sum_of_squares_over_batch g = Ok s.
Proof.
  unfold sum_of_squares_over_batch. intros HsE [Hn ->]%view_Ok.
  rewrite (sum_dim_0_pow2 E b rest HsE). intros [= <-].
  intros [Hw ->]%view_Ok.
  rewrite (sum_dim_0_pow2 _ B w) by done. simpl.
  unfold numel in *. rewrite HsE in Hn. simpl in *. rewrite Hw in *.
  do 2 f_equal.
  destruct (decide (numel_of rest = 0%nat)) as [H0|H0].
  - rewrite H0, !Nat.mul_0_r. by rewrite !vsum_0.
  - by replace B with b by nia.
Qed.

Lemma weight_statistics_of_contraction self grad_output g s :
  _compute_weight_grad_batch self grad_output = Ok g ->
  _compute_weight_sgs self grad_output = Ok s ->
  sum_of_squares_over_batch g = Ok s /\ size s = size (data (weight self)).
Proof.
  intros (E & B & HE & _ & Hg)%weight_grad_batch_Ok
         (E' & s0 & HE' & Hs0 & Hs)%weight_sgs_Ok.
  rewrite HE in HE'. injection HE' as <-.
  destruct (weight_contraction_size _ _ _ HE) as (b & M & HsE).
  split; [by eapply sum_of_squares_view|].
  apply view_Ok in Hs as [_ ->]. done.
Qed.

Lemma Forall_zip_with_all {A B C} (P : C -> Prop) (f : A -> B -> C) l k :
  (forall x y, P (f x y)) -> Forall P (zip_with f l k).
Proof.
  intros H. revert k. induction l as [|x l IH]; intros [|y k]; simpl;
    constructor; auto.
Qed.

Lemma einsum_blj_bkj_bkl_well_formed A B E :
  einsum_blj_bkj_bkl A B = Ok E -> well_formed E.
Proof.
  unfold einsum_blj_bkj_bkl.
  destruct (size A) as [|b1 [|l [|j1 [|? ?]]]], (size B) as [|b2 [|k [|j2 [|? ?]]]];
    try done.
  destruct (broadcast b1 b2) as [b|]; [|done].
  destruct (broadcast j1 j2) as [j|]; [|done].
  intros [= <-].
  unfold well_formed, numel. simpl.
  rewrite (length_join_same _ (k * l)).
  - rewrite length_zip_with, !length_rows. lia.
  - apply Forall_zip_with_all. intros Ab Bb.
    rewrite (length_join_same _ l).
    + by rewrite length_fmap, length_rows.
    + apply Forall_fmap, Forall_true. intros Bk. simpl.
      by rewrite length_fmap, length_rows.
Qed.

Lemma view_well_formed t s t' :
  well_formed t -> view t s = Ok t' -> well_formed t' /\ size t' = s.
Proof.
  unfold view, well_formed. case_bool_decide as Hn; [|done].
  intros Hwf [= <-]. unfold numel in *. simpl. split; [congruence|done].
Qed.

Lemma weight_grad_batch_well_formed self grad_output g :
  _compute_weight_grad_batch self grad_output = Ok g ->
  well_formed g /\
  exists batch_size, size_at grad_output 0 = Ok batch_size /\
                     size g = batch_size :: size (data (weight self)).
Proof.
  unfold _compute_weight_grad_batch.
  destruct (size_at grad_output 0) as [B|e]; [|done]. simpl.
  destruct (get_input self) as [input|e]; [|done]. simpl.
  destruct (unfold self input) as [X|e]; [|done]. simpl.
  destruct (view_infer_last grad_output B (out_channels self)) as [dY|e]; [|done].
  simpl.
  destruct (einsum_blj_bkj_bkl X dY) as [E|e] eqn:HE; [|done]. simpl.
  intros Hv.
  destruct (view_well_formed _ _ _ (einsum_blj_bkj_bkl_well_formed _ _ _ HE) Hv).
  split; [done|]. by exists B.
Qed.

Lemma bias_sgs_is_sum_of_squares self grad_output :
  _compute_bias_sgs self grad_output
  = (g ← _compute_bias_grad_batch self grad_output; sum_of_squares_over_batch g).
Proof.
  unfold _compute_bias_sgs, _compute_bias_grad_batch.
  destruct (sum_dim 3 grad_output) as [s3|e]; simpl; [|done].
  by destruct (sum_dim 2 s3).
Qed.

Lemma stored_weight_sgs self grad_output self' :
  compute_sum_grad_squared grad_output self = (self', Ok tt) ->
  requires_grad (weight self) = true ->
  exists s, _compute_weight_sgs self grad_output = Ok s /\
            attrs (weight self') !! "sum_grad_squared" = Some s.
Proof.
  unfold compute_sum_grad_squared, hbind, hwhen, hread, hmodify.
  intros H Hrg. revert H.
  destruct (bias self) as [b|] eqn:Hb; [destruct (requires_grad b)|];
    try destruct (_compute_bias_sgs self grad_output) as [sb|e]; simpl;
    rewrite ?Hrg; try done;
    change (_compute_weight_sgs (with_bias _ self) grad_output)
      with (_compute_weight_sgs self grad_output);
    destruct (_compute_weight_sgs self grad_output) as [s|e'];
    simpl; try done; intros [= <-]; exists s; simpl;
    by rewrite lookup_insert_eq.
Qed.

Lemma stored_bias_sgs self grad_output self' b :
  compute_sum_grad_squared grad_output self = (self', Ok tt) ->
  bias self = Some b -> requires_grad b = true ->
  exists s b', _compute_bias_sgs self grad_output = Ok s /\
               bias self' = Some b' /\
               attrs b' !! "sum_grad_squared" = Some s.
Proof.
  unfold compute_sum_grad_squared, hbind, hwhen, hread, hmodify.
  intros H Hb Hrg. revert H. rewrite Hb, Hrg.
  destruct (_compute_bias_sgs self grad_output) as [sb|e]; simpl; [|done].
  destruct (requires_grad (weight self)); simpl.
  - change (_compute_weight_sgs (with_bias _ self) grad_output)
      with (_compute_weight_sgs self grad_output).
    destruct (_compute_weight_sgs self grad_output) as [s|e']; simpl; [|done].
    intros [= <-]. simpl. rewrite Hb. simpl. eexists _, _. split_and!; try done.
    simpl. by rewrite lookup_insert_eq.
  - intros [= <-]. simpl. rewrite Hb. eexists _, _. split_and!; try done.
    simpl. by rewrite lookup_insert_eq.
Qed.





(** With the same batch size in the cached input and in the output
    gradient, the contraction has that batch size. *)
Lemma same_batch_contraction self grad_output x N E :
  get_input self = Ok x -> size_at x 0 = Ok N -> size_at grad_output 0 = Ok N ->
  weight_contraction self grad_output = Ok E ->
  exists M, (0 < N)%nat /\ size E = [N; out_channels self; M].
Proof.
  intros Hx HN HB
    (x' & X & N' & M & L & B & J & b & Hx' & HX & HsX & HB' & HB0 & _ & Hb & _ & HsE)
    %weight_contraction_inv.
  rewrite Hx in Hx'. injection Hx' as <-.
  rewrite HB in HB'. injection HB' as <-.
  destruct (Unfold_batched _ _ _ _ _ _ _ _ _ HX HsX) as (C & H & W & Hsx).
  unfold size_at in HN. rewrite Hsx in HN. injection HN as <-.
  rewrite broadcast_same in Hb. injection Hb as <-.
  exists M. split; [lia|done].
Qed.

Lemma weight_statistics_same_batch self grad_output x N :
  get_input self = Ok x -> size_at x 0 = Ok N -> size_at grad_output 0 = Ok N ->
  (succeeds (_compute_weight_grad_batch self grad_output) <->
   succeeds (_compute_weight_sgs self grad_output)).
Proof.
  intros Hx HN HB. unfold succeeds. split.
  - intros [g (E & B & HE & HB' & Hv)%weight_grad_batch_Ok].
    destruct (same_batch_contraction _ _ _ _ _ Hx HN HB HE) as (M & HN0 & HsE).
    rewrite HB in HB'. injection HB' as <-.
    apply view_Ok in Hv as [Hn _]. unfold numel in Hn. rewrite HsE in Hn.
    simpl in Hn.
    eexists. apply weight_sgs_Ok. eexists E, _. split_and!; [done| |].
    + unfold sum_of_squares_over_batch. by apply (sum_dim_0_pow2 E _ _ HsE).
    + apply view_Ok. split; [|done]. unfold numel. simpl. nia.
  - intros [s (E & s0 & HE & Hs0 & Hv)%weight_sgs_Ok].
    destruct (same_batch_contraction _ _ _ _ _ Hx HN HB HE) as (M & HN0 & HsE).
    unfold sum_of_squares_over_batch in Hs0.
    rewrite (sum_dim_0_pow2 E _ _ HsE) in Hs0. injection Hs0 as <-.
    apply view_Ok in Hv as [Hn _]. unfold numel in Hn. simpl in Hn.
    eexists. apply weight_grad_batch_Ok. eexists E, N. split_and!; [done..|].
    apply view_Ok. split; [|done]. unfold numel. rewrite HsE. simpl. nia.
Qed.

(** Whenever the per-example weight gradient and the weight statistic are
    both computed, the statistic is the sum over the batch of the
    elementwise square of the gradient, a tensor of the size of the weight.
    When the cached input and the output gradient have the same batch
    size, the one is computed if and only if the other is.  They need not
    be otherwise: for a cached batch of two examples and an output
    gradient of one, the contraction broadcasts the output gradient, the
    statistic is computed and the per-example gradient raises. *)
Theorem weight_statistics_agree (self : Conv2d) (grad_output : tensor) :
  (forall g s,
     _compute_weight_grad_batch self grad_output = Ok g ->
     _compute_weight_sgs self grad_output = Ok s ->
     sum_of_squares_over_batch g = Ok s /\ size s = size (data (weight self))) /\
  (forall x N,
     get_input self = Ok x -> size_at x 0 = Ok N -> size_at grad_output 0 = Ok N ->
     (succeeds (_compute_weight_grad_batch self grad_output) <->
      succeeds (_compute_weight_sgs self grad_output))) /\
  (exists m go s e,
     get_input m = Ok example_input /\ size_at go 0 = Ok 1%nat /\
     _compute_weight_sgs m go = Ok s /\
     _compute_weight_grad_batch m go = Raise e).
Proof.
  split_and!.
  - apply weight_statistics_of_contraction.
  - apply weight_statistics_same_batch.
  - exists example_layer_after_forward, single_grad_output.
    eexists _, _. split_and!; vm_compute; reflexivity.
Qed.

(** The two contractions of conv2d.py, ['blj,bkj->bkl'] on [(X, dE_dY)] and
    ['bml,bkl->bmk'] on [(dE_dY, X)], are one tensor. *)
Theorem einsum_contractions_agree (X dE_dY : tensor) :
  einsum_blj_bkj_bkl X dE_dY = einsum_bml_bkl_bmk dE_dY X.
Proof. apply einsum_operands_swap. Qed.

End conv2d_statistics.

(** * Convolution: what the backward hook leaves untouched *)

Section conv2d_frame_proofs.
Import conv2d.

Section frame_rules.
Context (names : bool -> list string).

Lemma touches_only_refl ns p : touches_only ns p p.
Proof. done. Qed.

Lemma touches_only_trans ns p1 p2 p3 :
  touches_only ns p1 p2 -> touches_only ns p2 p3 -> touches_only ns p1 p3.
Proof.
  intros (Hd & Hr & Ha) (Hd' & Hr' & Ha').
  split_and!; [congruence..|]. intros name Hn. rewrite Ha', Ha; done.
Qed.

Lemma frame_refl m : frame names m m.
Proof. split_and!; try done. by destruct (bias m). Qed.

Lemma frame_trans m1 m2 m3 :
  frame names m1 m2 -> frame names m2 m3 -> frame names m1 m3.
Proof.
  intros (Hc & Hw & Hb) (Hc' & Hw' & Hb').
  split_and!.
  - unfold same_configuration in *. destruct_and!. split_and!; congruence.
  - destruct Hw as (? & Hr & ?). rewrite Hr in Hw'.
    by eapply touches_only_trans.
  - destruct (bias m1) as [b1|], (bias m2) as [b2|], (bias m3) as [b3|]; try done.
    destruct Hb as (? & Hr & ?). rewrite Hr in Hb'.
    by eapply touches_only_trans.
Qed.

Lemma preserves_hret {A} (a : A) : preserves names (hret a).
Proof. intros m. apply frame_refl. Qed.

Lemma preserves_hraise {A} e : preserves names (@hraise A e).
Proof. intros m. apply frame_refl. Qed.

Lemma preserves_hread {A} (f : Conv2d -> result A) : preserves names (hread f).
Proof. intros m. apply frame_refl. Qed.

Lemma preserves_hbind {A B} (c : hook A) (k : A -> hook B) :
  preserves names c -> (forall a, preserves names (k a)) ->
  preserves names (hbind c k).
Proof.
  intros Hc Hk m. unfold hbind. specialize (Hc m).
  destruct (c m) as [m' [a|e]]; simpl in *; [|done].
  eapply frame_trans; [done|]. apply Hk.
Qed.

Lemma preserves_hwhen cond (c : hook unit) :
  (forall m, cond m = true -> frame names m (c m).1) ->
  preserves names (hwhen cond c).
Proof.
  intros Hc m. unfold hwhen. destruct (cond m) eqn:E; [by apply Hc|].
  apply frame_refl.
Qed.

Lemma frame_set_weight_attr name v m :
  name ∈ names (requires_grad (weight m)) ->
  frame names m (with_weight (setattr name v) m).
Proof.
  intros Hin. split_and!; try done.
  - split_and!; try done. intros n Hn. simpl.
    rewrite lookup_insert_ne; [done|]. by intros ->.
  - simpl. by destruct (bias m).
Qed.

Lemma frame_set_bias_attr name v m :
  (forall b, bias m = Some b -> name ∈ names (requires_grad b)) ->
  frame names m (with_bias (setattr name v) m).
Proof.
  intros Hin. split_and!; try done. simpl.
  destruct (bias m) as [b|]; simpl; [|done].
  split_and!; try done. intros n Hn. simpl.
  rewrite lookup_insert_ne; [done|]. intros ->. by apply Hn, Hin.
Qed.

(** [if self.weight.requires_grad: self.weight.<name> = f(self)] *)
Lemma preserves_weight_update name (f : Conv2d -> result tensor) :
  name ∈ names true ->
  preserves names
    (hwhen (fun self => requires_grad (weight self))
       (hbind (hread f) (fun v => hmodify (with_weight (setattr name v))))).
Proof.
  intros Hin. apply preserves_hwhen. intros m Hrg.
  unfold hbind, hread, hmodify. destruct (f m) as [v|e]; simpl.
  - apply frame_set_weight_attr. by rewrite Hrg.
  - apply frame_refl.
Qed.

(** [if self.bias is not None and self.bias.requires_grad:
       self.bias.<name> = f(self)] *)
Lemma preserves_bias_update name (f : Conv2d -> result tensor) :
  name ∈ names true ->
  preserves names
    (hwhen (fun self => match bias self with
                        | Some b => requires_grad b
                        | None => false
                        end)
       (hbind (hread f) (fun v => hmodify (with_bias (setattr name v))))).
Proof.
  intros Hin. apply preserves_hwhen. intros m Hrg.
  unfold hbind, hread, hmodify. destruct (f m) as [v|e]; simpl.
  - apply frame_set_bias_attr. intros b Hb. rewrite Hb in Hrg. by rewrite Hrg.
  - apply frame_refl.
Qed.

End frame_rules.

Lemma frame_mono (names names' : bool -> list string) m m' :
  (forall rg, names rg ⊆ names' rg) -> frame names m m' -> frame names' m m'.
Proof.
  intros Hsub (Hc & Hw & Hb).
  assert (Ht : forall rg p p', touches_only (names rg) p p' ->
                               touches_only (names' rg) p p').
  { intros rg p p' (? & ? & Ha). split_and!; try done.
    intros n Hn. apply Ha. intros Hin. by apply Hn, Hsub. }
  split_and!; [done|by apply Ht|].
  destruct (bias m), (bias m'); try done. by apply Ht.
Qed.

Lemma preserves_mono {A} names names' (c : hook A) :
  (forall rg, names rg ⊆ names' rg) -> preserves names c -> preserves names' c.
Proof. intros Hsub Hc m. eapply frame_mono; [done|]. apply Hc. Qed.

Lemma preserves_compute_grad_batch g :
  preserves (fun rg : bool => if rg then ["grad_batch"] else []) (compute_grad_batch g).
Proof.
  unfold compute_grad_batch. apply preserves_hbind.
  - apply preserves_bias_update. by apply list_elem_of_singleton.
  - intros _. apply preserves_weight_update. by apply list_elem_of_singleton.
Qed.

Lemma preserves_compute_sum_grad_squared g :
  preserves (fun rg : bool => if rg then ["sum_grad_squared"] else [])
    (compute_sum_grad_squared g).
Proof.
  unfold compute_sum_grad_squared. apply preserves_hbind.
  - apply preserves_bias_update. by apply list_elem_of_singleton.
  - intros _. apply preserves_weight_update. by apply list_elem_of_singleton.
Qed.

Lemma preserves_compute_first_order_info CTX grad_input grad_output :
  preserves (attached CTX) (compute_first_order_info CTX grad_input grad_output).
Proof.
  unfold compute_first_order_info.
  case_bool_decide; simpl; [|apply preserves_hraise].
  destruct (grad_output !! 0%nat) as [g|]; [|apply preserves_hraise].
  apply preserves_hbind; [|intros _]; apply preserves_hwhen; intros m Ha.
  - eapply frame_mono; [|apply preserves_compute_grad_batch].
    intros rg name Hin. unfold attached. rewrite Ha.
    apply elem_of_app. left. by destruct rg.
  - eapply frame_mono; [|apply preserves_compute_sum_grad_squared].
    intros rg name Hin. unfold attached. rewrite Ha.
    apply elem_of_app. right. by destruct rg.
Qed.

Lemma touches_only_attached CTX p p' :
  touches_only (attached CTX (requires_grad p)) p p' ->
  forall name, attrs p' !! name <> attrs p !! name -> may_attach CTX p name.
Proof.
  intros (_ & _ & Ha) name Hne.
  destruct (decide (name ∈ attached CTX (requires_grad p))) as [Hin|Hnin];
    [|by destruct Hne; apply Ha].
  unfold attached, may_attach in *.
  apply elem_of_app in Hin as [Hin|Hin]; [left|right].
  - destruct (config.is_active CTX config.BATCH_GRAD), (requires_grad p);
      simpl in Hin; try (by apply elem_of_nil in Hin).
    apply list_elem_of_singleton in Hin. by subst name.
  - destruct (config.is_active CTX config.SUM_GRAD_SQUARED), (requires_grad p);
      simpl in Hin; try (by apply elem_of_nil in Hin).
    apply list_elem_of_singleton in Hin. by subst name.
Qed.

(** C10.  Whatever the backward hook returns or raises, the module it
    leaves behind differs from the module it was given in nothing but
    attributes attached to the parameters: an attribute of a parameter has
    changed only if it is [grad_batch], the batch-gradient extension is
    active and the parameter requires a gradient, or it is
    [sum_grad_squared], the sum-of-squared-gradients extension is active
    and the parameter requires a gradient.  A layer without bias is left
    without bias; the hyperparameters, the buffers, and the value and the
    [requires_grad] flag of each parameter are untouched. *)
Theorem backward_hook_frame
    (CTX : config.Context) (grad_input grad_output : list tensor) (m : Conv2d) :
  let m' := (compute_first_order_info CTX grad_input grad_output m).1 in
  same_configuration m m' /\
  data (weight m') = data (weight m) /\
  requires_grad (weight m') = requires_grad (weight m) /\
  (forall name, attrs (weight m') !! name <> attrs (weight m) !! name ->
                may_attach CTX (weight m) name) /\
  match bias m with
  | None => bias m' = None
  | Some b =>
      exists b', bias m' = Some b' /\
        data b' = data b /\ requires_grad b' = requires_grad b /\
        forall name, attrs b' !! name <> attrs b !! name -> may_attach CTX b name
  end.
Proof.
  intros m'.
  destruct (preserves_compute_first_order_info CTX grad_input grad_output m)
    as (Hc & Hw & Hb). fold m' in Hc, Hw, Hb.
  split_and!; try done; try apply Hw.
  - by apply touches_only_attached.
  - destruct (bias m) as [b|], (bias m') as [b'|]; try done.
    exists b'. split_and!; try done; try apply Hb.
    by apply touches_only_attached.
Qed.

End conv2d_frame_proofs.

(** * Convolution: clearing the artifacts *)

Section conv2d_clearing.
Import conv2d.

Lemma delattr_cleared name p :
  match delattr name p with
  | Ok p' => cleared name p p'
  | Raise e => cleared name p p /\ exists n, e = AttributeError n
  end.
Proof.
  unfold delattr, cleared. destruct (attrs p !! name) eqn:E; simpl.
  - done.
  - split_and!; try done; [|by eexists]. by rewrite delete_id.
Qed.

Lemma clear_attr_spec name (m : Conv2d) :
  let r := (except_AttributeError_pass (del_weight_attr name) >>
            except_AttributeError_pass (del_bias_attr name)) m in
  r.2 = Ok tt /\
  same_configuration m r.1 /\
  cleared name (weight m) (weight r.1) /\
  match bias m with
  | None => bias r.1 = None
  | Some b => exists b', bias r.1 = Some b' /\ cleared name b b'
  end.
Proof.
  unfold hbind, except_AttributeError_pass, del_weight_attr, del_bias_attr.
  pose proof (delattr_cleared name (weight m)) as Hw.
  destruct (delattr name (weight m)) as [w|e]; simpl.
  - destruct (bias m) as [b|] eqn:Hb; simpl; [|by rewrite Hb].
    pose proof (delattr_cleared name b) as Hb'.
    destruct (delattr name b) as [b'|e]; simpl.
    + rewrite Hb. simpl. split_and!; try done. by exists b'.
    + destruct Hb' as [Hc [n ->]]. simpl. rewrite Hb.
      split_and!; try done. by exists b.
  - destruct Hw as [Hc [n ->]]. simpl.
    destruct (bias m) as [b|] eqn:Hb; simpl; [|by rewrite Hb].
    pose proof (delattr_cleared name b) as Hb'.
    destruct (delattr name b) as [b'|e]; simpl.
    + rewrite Hb. simpl. split_and!; try done. by exists b'.
    + destruct Hb' as [Hc' [n' ->]]. simpl. rewrite Hb.
      split_and!; try done. by exists b.
Qed.

(** [clear_grad_batch] and [clear_sum_grad_squared] never raise, with or
    without a bias and whether or not the artifact is there: they remove
    the artifact they name from the weight and from the bias and leave
    everything else of the module as it was. *)
Theorem clearing_never_raises (m : Conv2d) :
  (let r := clear_grad_batch m in
   r.2 = Ok tt /\ same_configuration m r.1 /\
   cleared "grad_batch" (weight m) (weight r.1) /\
   match bias m with
   | None => bias r.1 = None
   | Some b => exists b', bias r.1 = Some b' /\ cleared "grad_batch" b b'
   end) /\
  (let r := clear_sum_grad_squared m in
   r.2 = Ok tt /\ same_configuration m r.1 /\
   cleared "sum_grad_squared" (weight m) (weight r.1) /\
   match bias m with
   | None => bias r.1 = None
   | Some b => exists b', bias r.1 = Some b' /\ cleared "sum_grad_squared" b b'
   end).
Proof. split; apply clear_attr_spec. Qed.

End conv2d_clearing.

(** * Strategy registry: the derived predicates *)

Section strategy_extras.

(** The two predicates of the propagation strategy are mutually exclusive
    and together exhaustive on the labels of the enumeration, and both
    raise on every other label. *)
Theorem backprop_strategy_predicates_partition (strategy : string) :
  match BackpropStrategy.check_exists strategy with
  | Ok _ =>
      exists b, BackpropStrategy.is_sqrt strategy = Ok b /\
                BackpropStrategy.is_batch_average strategy = Ok (negb b)
  | Raise e =>
      BackpropStrategy.is_sqrt strategy = Raise e /\
      BackpropStrategy.is_batch_average strategy = Raise e
  end.
Proof.
  unfold BackpropStrategy.is_sqrt, BackpropStrategy.is_batch_average.
  unfold BackpropStrategy.check_exists, py_in.
  case_bool_decide as Hin; simpl; [|split; reflexivity].
  exists (bool_decide (strategy = BackpropStrategy.SQRT)). split; [reflexivity|].
  unfold BackpropStrategy.CHOICES in Hin.
  apply elem_of_cons in Hin as [->|Hin]; [reflexivity|].
  apply list_elem_of_singleton in Hin as ->. reflexivity.
Qed.

(** Parameter Jacobians are averaged over the batch for the scheme
    [E(J^T) E(H) E(J)] only. *)
Theorem should_average_param_jac_only_chen (strategy : string) :
  ExpectationApproximation.should_average_param_jac strategy = Ok true
  <-> strategy = ExpectationApproximation.CHEN.
Proof.
  unfold ExpectationApproximation.should_average_param_jac.
  unfold ExpectationApproximation.check_exists, py_in.
  split.
  - destruct (bool_decide (strategy = ExpectationApproximation.CHEN)) eqn:E;
      [intros _; by apply bool_decide_eq_true in E|].
    by destruct (bool_decide (strategy ∈ ExpectationApproximation.CHOICES)).
  - intros ->. reflexivity.
Qed.

End strategy_extras.

(** * Convolution: the forward hook *)

Section conv2d_forward_hook.
Import conv2d.

Lemma store_input_cases (input : list tensor) (m : Conv2d) :
  store_input input m =
  match input with
  | [input0] =>
      if bool_decide (length (size input0) = 4%nat) then
        (register_buffer "input" input0 m, Ok tt)
      else (m, Raise (ValueError "Expecting 4D input (batch, channel, x, y)"))
  | _ => (m, Raise (ValueError "Cannot handle multi-input scenario"))
  end.
Proof.
  unfold store_input.
  destruct input as [|input0 [|? ?]]; simpl; try done.
  by case_bool_decide.
Qed.

(** C6 (amended).  The forward hook raises the shape error (Python's
    [ValueError]) and leaves the module as it was when the number of inputs
    is not exactly one (none, or more than one) or when the single input
    does not have rank 4; given exactly one input of rank 4 it returns
    and the module's buffer [input] holds that input, whatever it held
    before, while everything else in the module is as it was. *)
Theorem store_input_spec (input : list tensor) (m : Conv2d) :
  let m' := (store_input input m).1 in
  let r := (store_input input m).2 in
  (length input <> 1%nat -> raises_ShapeError r /\ m' = m) /\
  (forall input0, input = [input0] -> length (size input0) <> 4%nat ->
     raises_ShapeError r /\ m' = m) /\
  (forall input0, input = [input0] -> length (size input0) = 4%nat ->
     r = Ok tt /\
     buffers m' !! "input" = Some input0 /\
     (forall name, name <> "input" -> buffers m' !! name = buffers m !! name) /\
     weight m' = weight m /\ bias m' = bias m /\
     in_channels m' = in_channels m /\ out_channels m' = out_channels m /\
     kernel_size m' = kernel_size m /\ stride m' = stride m /\
     padding m' = padding m /\ dilation m' = dilation m /\
     groups m' = groups m).
Proof.
  intros m' r. subst m' r. rewrite store_input_cases. split_and!.
  - intros Hlen. destruct input as [|input0 [|? ?]]; simpl in *;
      try lia; split; try done; by eexists.
  - intros input0 -> Hrank. rewrite bool_decide_eq_false_2 by done.
    split; [by eexists|done].
  - intros input0 -> Hrank. rewrite bool_decide_eq_true_2 by done. simpl.
    split_and!; try done.
    + by rewrite lookup_insert_eq.
    + intros name Hne. by rewrite lookup_insert_ne.
Qed.

(** Given no input at all the hook is given neither more than one input
    nor an input whose rank is not 4; it raises all the same and caches
    nothing. *)
Lemma store_input_without_input :
  ~ (1 < length (@nil tensor))%nat /\
  Forall (fun t => length (size t) = 4%nat) (@nil tensor) /\
  store_input [] example_layer
  = (example_layer, Raise (ValueError "Cannot handle multi-input scenario")) /\
  buffers (store_input [] example_layer).1 !! "input" = None.
Proof. split_and!; [simpl; lia|constructor|reflexivity|reflexivity]. Qed.

End conv2d_forward_hook.

(** * Convolution: when the statistics are computed, and when they raise *)

Section conv2d_failures.
Import conv2d.

Lemma Unfold_size ks dl pd st x X N C H W :
  size x = [N; C; H; W] -> Unfold ks dl pd st x = Ok X ->
  exists L, size X = [N; (C * ks.1 * ks.2)%nat; L].
Proof.
  unfold Unfold. intros ->. repeat (case_bool_decide; simpl; try done).
  intros [= <-]. by eexists.
Qed.

Lemma weight_grad_batch_shapes (self : Conv2d) (grad_output : tensor) :
  succeeds (_compute_weight_grad_batch self grad_output) <->
  exists x X N M L B J b,
    buffers self !! "input" = Some x /\
    unfold self x = Ok X /\ size X = [N; M; L] /\
    size grad_output !! 0%nat = Some B /\
    (0 < B * out_channels self)%nat /\
    numel grad_output = (B * out_channels self * J)%nat /\
    broadcast N B = Some b /\ is_Some (broadcast L J) /\
    (B * numel_of (size (data (weight self))) = b * out_channels self * M)%nat.
Proof.
  unfold succeeds. split.
  - intros [g (E & B & HE & HB & Hv)%weight_grad_batch_Ok].
    apply weight_contraction_inv in HE
      as (x & X & N & M & L & B' & J & b & Hx & HX & HsX & HB' & HBK & Hn & Hb & Hj & HsE).
    rewrite HB in HB'. injection HB' as <-.
    apply view_Ok in Hv as [Hnum _]. unfold numel in Hnum. rewrite HsE in Hnum.
    simpl in Hnum.
    exists x, X, N, M, L, B, J, b. split_and!; try done.
    + unfold get_input in Hx. by destruct (buffers self !! "input") as [?|]; simplify_eq.
    + unfold size_at in HB. by destruct (size grad_output !! 0%nat); simplify_eq.
    + lia.
  - intros (x & X & N & M & L & B & J & b & Hx & HX & HsX & HB & HBK & Hn & Hb & Hj & Hw).
    assert (Hx' : get_input self = Ok x) by (unfold get_input; by rewrite Hx).
    assert (HB' : size_at grad_output 0 = Ok B) by (unfold size_at; by rewrite HB).
    destruct (weight_contraction_succeeds self grad_output x X N M L B J)
      as [E HE]; try done.
    destruct (weight_contraction_inv _ _ _ HE)
      as (x' & X' & N' & M' & L' & B' & J' & b' & Hx'' & HX' & HsX' & HB'' & _ & _ & Hb' & _ & HsE).
    rewrite Hx' in Hx''. injection Hx'' as <-.
    rewrite HX in HX'. injection HX' as <-.
    rewrite HsX in HsX'. injection HsX' as <- <- <-.
    rewrite HB' in HB''. injection HB'' as <-.
    rewrite Hb in Hb'. injection Hb' as <-.
    eexists. apply weight_grad_batch_Ok. exists E, B. split_and!; [done..|].
    apply view_Ok. split; [|done]. unfold numel. rewrite HsE. simpl. lia.
Qed.

(** The per-example weight gradient is computed exactly when the forward
    hook has cached an input that [unfold] turns into patches [X] of size
    [(N, M, L)], the output gradient has a first extent [B] and
    [B * out_channels * J] elements with [B * out_channels] positive, the
    batch sizes [N] and [B] broadcast to some [b] and the numbers of
    patches [L] and [J] broadcast (they are equal, or one of them is 1),
    and [B] times the number of elements of the weight is
    [b * out_channels * M]; otherwise [_compute_weight_grad_batch] raises.
    An output gradient with an empty batch and a layer without output
    channels are refused.  The batch sizes need not agree: for a cached
    input of one example and an output gradient of two, the cached example
    is used for both. *)
Theorem weight_grad_batch_shape_contract (self : Conv2d) (grad_output : tensor) :
  (succeeds (_compute_weight_grad_batch self grad_output) <->
   exists x X N M L B J b,
     buffers self !! "input" = Some x /\
     unfold self x = Ok X /\ size X = [N; M; L] /\
     size grad_output !! 0%nat = Some B /\
     (0 < B * out_channels self)%nat /\
     numel grad_output = (B * out_channels self * J)%nat /\
     broadcast N B = Some b /\ is_Some (broadcast L J) /\
     (B * numel_of (size (data (weight self))) = b * out_channels self * M)%nat) /\
  (exists g,
     size single_input = [1; 1; 3; 3]%nat /\
     _compute_weight_grad_batch single_layer_after_forward example_grad_output = Ok g /\
     size g = [2; 2; 1; 2; 2]%nat).
Proof.
  split; [apply weight_grad_batch_shapes|].
  eexists. split_and!; [done|vm_compute; reflexivity|done].
Qed.

(** On the input, the output gradient and the weight of an ordinary
    convolution (one group, a batch that is not empty, the output gradient
    of the size that the layer's output has), both weight statistics are
    computed: the per-example gradient with the size of the weight behind
    the batch axis, and the sum of its squares over the batch with the size
    of the weight. *)
Theorem weight_statistics_computed
    (self : Conv2d) (x grad_output : tensor) (N C H W : nat) :
  let K := out_channels self in
  let kh := (kernel_size self).1 in
  let kw := (kernel_size self).2 in
  let Lh := Z.to_nat (out_extent H kh (dilation self).1 (padding self).1 (stride self).1) in
  let Lw := Z.to_nat (out_extent W kw (dilation self).2 (padding self).2 (stride self).2) in
  buffers self !! "input" = Some x ->
  size x = [N; C; H; W] ->
  size (data (weight self)) = [K; C; kh; kw] ->
  size grad_output = [N; K; Lh; Lw] ->
  (0 < N)%nat -> (0 < C)%nat -> (0 < H)%nat -> (0 < W)%nat ->
  (0 < K)%nat -> (0 < Lh)%nat -> (0 < Lw)%nat ->
  (0 < kh)%nat -> (0 < kw)%nat ->
  (0 < (dilation self).1)%nat -> (0 < (dilation self).2)%nat ->
  (0 < (stride self).1)%nat -> (0 < (stride self).2)%nat ->
  exists g s,
    _compute_weight_grad_batch self grad_output = Ok g /\
    size g = [N; K; C; kh; kw] /\
    _compute_weight_sgs self grad_output = Ok s /\
    size s = [K; C; kh; kw] /\
    sum_of_squares_over_batch g = Ok s.
Proof.
  intros K kh kw Lh Lw Hin Hx Hw Hgo HN HC HH HW HK HLh HLw Hkh Hkw Hd1 Hd2 Hs1 Hs2.
  assert (Hget : get_input self = Ok x) by (unfold get_input; by rewrite Hin).
  assert (HX : exists X, unfold self x = Ok X /\
                         size X = [N; (C * kh * kw)%nat; (Lh * Lw)%nat]).
  { unfold unfold, Unfold. rewrite Hx. fold kh kw.
    rewrite !bool_decide_eq_true_2 by lia. simpl.
    eexists. split; [done|]. simpl. do 3 f_equal. unfold Lh, Lw.
    rewrite Z2Nat.inj_mul by lia. done. }
  destruct HX as (X & HX & HsX).
  assert (Hgb : succeeds (_compute_weight_grad_batch self grad_output)).
  { apply weight_grad_batch_shapes.
    exists x, X, N, (C * kh * kw)%nat, (Lh * Lw)%nat, N, (Lh * Lw)%nat, N.
    split_and!; try done.
    - by rewrite Hgo.
    - fold K. nia.
    - unfold numel. rewrite Hgo. fold K. simpl. lia.
    - apply broadcast_same.
    - rewrite broadcast_same. by eexists.
    - rewrite Hw. fold K. simpl. lia. }
  assert (HN0 : size_at x 0 = Ok N) by (unfold size_at; by rewrite Hx).
  assert (HB0 : size_at grad_output 0 = Ok N) by (unfold size_at; by rewrite Hgo).
  pose proof (proj1 (weight_statistics_same_batch _ _ _ _ Hget HN0 HB0) Hgb) as Hsgs.
  destruct Hgb as [g Hg], Hsgs as [s Hs].
  destruct (weight_statistics_of_contraction _ _ _ _ Hg Hs) as [Hsq Hss].
  destruct (weight_grad_batch_well_formed _ _ _ Hg) as (_ & B & HB & Hsg).
  rewrite HB0 in HB. injection HB as <-.
  exists g, s. split_and!; try done; congruence.
Qed.

(** The theorem on [example_layer_after_forward]: a 2 x 2 kernel on a batch
    of two 3 x 3 inputs, with stride 1 and no padding. *)
Lemma weight_statistics_computed_witness :
  exists g s,
    _compute_weight_grad_batch example_layer_after_forward example_grad_output = Ok g /\
    size g = [2; 2; 1; 2; 2]%nat /\
    _compute_weight_sgs example_layer_after_forward example_grad_output = Ok s /\
    size s = [2; 1; 2; 2]%nat /\
    sum_of_squares_over_batch g = Ok s.
Proof.
  apply (weight_statistics_computed
           example_layer_after_forward example_input example_grad_output 2 1 3 3);
    try reflexivity; vm_compute; lia.
Defined.

Lemma cancel_kernel (K kh kw u v : nat) :
  (0 < K)%nat -> (0 < kh)%nat -> (0 < kw)%nat ->
  (K * (kh * kw) * u = K * (kh * kw) * v)%nat -> u = v.
Proof.
  intros HK Hkh Hkw Heq. apply Nat.mul_cancel_l in Heq; [done|].
  assert (0 < kh * kw)%nat by (apply Nat.mul_pos_pos; lia).
  assert (0 < K * (kh * kw))%nat by (apply Nat.mul_pos_pos; lia). lia.
Qed.

(** A grouped convolution is refused: when the weight has the size
    [(out_channels, C / groups, kh, kw)] that torch gives it and the layer
    has more than one group, neither weight statistic is computed, whatever
    the output gradient: the statistic [_compute_weight_sgs] never, and the
    per-example gradient not for a cached batch that is not empty, nor for
    a weight with an input channel in each group.  What is left is an
    empty cached batch with a weight without input channels, where the
    contraction broadcasts the batch of an output gradient of one example
    away and [_compute_weight_grad_batch] returns an empty tensor. *)
Theorem grouped_convolution_is_refused
    (self : Conv2d) (x grad_output : tensor) (N C H W : nat) :
  buffers self !! "input" = Some x ->
  size x = [N; C; H; W] ->
  size (data (weight self))
  = [out_channels self; (C `div` groups self)%nat;
     (kernel_size self).1; (kernel_size self).2] ->
  (1 < groups self)%nat -> (0 < C)%nat -> (0 < out_channels self)%nat ->
  (0 < (kernel_size self).1)%nat -> (0 < (kernel_size self).2)%nat ->
  ((0 < N)%nat \/ (0 < C `div` groups self)%nat ->
   ~ succeeds (_compute_weight_grad_batch self grad_output)) /\
  ~ succeeds (_compute_weight_sgs self grad_output) /\
  (exists g,
     buffers empty_grouped_layer_after_forward !! "input" = Some empty_input /\
     size empty_input = [0; 1; 3; 3]%nat /\
     size (data (weight empty_grouped_layer_after_forward)) = [2; 0; 2; 2]%nat /\
     groups empty_grouped_layer_after_forward = 2%nat /\
     _compute_weight_grad_batch empty_grouped_layer_after_forward single_grad_output
     = Ok g /\
     size g = [1; 2; 0; 2; 2]%nat).
Proof.
  intros Hin Hx Hw Hg HC HK Hkh Hkw.
  pose proof (Nat.div_lt C (groups self) HC Hg) as Hlt.
  assert (Hget : get_input self = Ok x) by (unfold get_input; by rewrite Hin).
  split_and!.
  - intros HN
      (x' & X & N' & M & L & B & J & b & Hin' & HX & HsX & _ & HBK & _ & Hb & _ & Hnum)
      %weight_grad_batch_shapes.
    rewrite Hin in Hin'. injection Hin' as <-.
    destruct (Unfold_size _ _ _ _ _ _ _ _ _ _ Hx HX) as (L' & HsX').
    rewrite HsX in HsX'. injection HsX' as -> -> _.
    rewrite Hw in Hnum. simpl in Hnum.
    set (q := (C `div` groups self)%nat) in *.
    assert (Hc : (B * q = b * C)%nat).
    { apply (cancel_kernel (out_channels self) (kernel_size self).1
               (kernel_size self).2); [done..|lia]. }
    assert (HB : (0 < B)%nat) by (destruct B; lia).
    apply broadcast_Some in Hb as [[-> ->]|[[-> ->]|[-> ->]]].
    + apply Nat.mul_cancel_l in Hc; lia.
    + apply Nat.mul_cancel_l in Hc; lia.
    + destruct N as [|N]; [lia|]. nia.
  - intros [s (E & s0 & HE & Hs0 & Hv)%weight_sgs_Ok].
    apply weight_contraction_inv in HE
      as (x' & X & N' & M & L & B & J & b & Hx' & HX & HsX & _ & _ & _ & _ & _ & HsE).
    rewrite Hget in Hx'. injection Hx' as <-.
    destruct (Unfold_size _ _ _ _ _ _ _ _ _ _ Hx HX) as (L' & HsX').
    rewrite HsX in HsX'. injection HsX' as -> -> _.
    unfold sum_of_squares_over_batch in Hs0.
    rewrite (sum_dim_0_pow2 E _ _ HsE) in Hs0. injection Hs0 as <-.
    apply view_Ok in Hv as [Hnum _]. unfold numel in Hnum. rewrite Hw in Hnum.
    simpl in Hnum.
    set (q := (C `div` groups self)%nat) in *.
    assert (Hc : q = C); [|lia].
    apply (cancel_kernel (out_channels self) (kernel_size self).1
             (kernel_size self).2); [done..|lia].
  - eexists. split_and!; [done..|vm_compute; reflexivity|done].
Qed.

(** The theorem on a layer of two groups, with two input channels. *)
Lemma grouped_convolution_is_refused_witness :
  ~ succeeds (_compute_weight_grad_batch grouped_layer_after_forward
                example_grad_output) /\
  ~ succeeds (_compute_weight_sgs grouped_layer_after_forward example_grad_output).
Proof.
  destruct (grouped_convolution_is_refused grouped_layer_after_forward grouped_input
              example_grad_output 2 2 3 3) as (Hgb & Hsgs & _);
    try reflexivity; try (vm_compute; lia).
  split; [apply Hgb; left; lia|exact Hsgs].
Defined.

Lemma bias_grad_batch_rank self grad_output :
  match _compute_bias_grad_batch self grad_output with
  | Ok g => (4 <= length (size grad_output))%nat /\
            size g = delete 2%nat (delete 3%nat (size grad_output))
  | Raise e => (length (size grad_output) < 4)%nat /\
               e = IndexError "Dimension out of range"
  end.
Proof.
  unfold _compute_bias_grad_batch, sum_dim.
  destruct (size grad_output) as [|B [|C [|H [|W rest]]]] eqn:Hs; simpl;
    try (split; [lia|done]).
Qed.

Lemma bias_statistics_rank (self : Conv2d) (grad_output : tensor) :
  (succeeds (_compute_bias_grad_batch self grad_output)
   <-> (4 <= length (size grad_output))%nat) /\
  (succeeds (_compute_bias_sgs self grad_output)
   <-> (4 <= length (size grad_output))%nat) /\
  ((length (size grad_output) < 4)%nat ->
   _compute_bias_grad_batch self grad_output
   = Raise (IndexError "Dimension out of range") /\
   _compute_bias_sgs self grad_output
   = Raise (IndexError "Dimension out of range")).
Proof.
  rewrite bias_sgs_is_sum_of_squares.
  pose proof (bias_grad_batch_rank self grad_output) as H.
  unfold succeeds.
  destruct (_compute_bias_grad_batch self grad_output) as [g|e]; simpl.
  - destruct H as [Hr Hs]. split_and!.
    + split; [done|by eexists].
    + split; [done|]. intros _. unfold sum_of_squares_over_batch, sum_dim. simpl.
      rewrite Hs.
      destruct (size grad_output) as [|B [|C [|? [|? ?]]]]; simpl in *; try lia.
      by eexists.
    + lia.
  - destruct H as [Hr ->]. split_and!.
    + split; [by intros [? ?]|lia].
    + split; [by intros [? ?]|lia].
    + done.
Qed.

(** The bias statistics are computed exactly for an output gradient of rank
    4 or more, whatever the layer and the elements of the gradient; for a
    lower rank both raise [IndexError]. *)
Theorem bias_statistics_need_rank_4 (self : Conv2d) (grad_output : tensor) :
  (succeeds (_compute_bias_grad_batch self grad_output)
   <-> (4 <= length (size grad_output))%nat) /\
  (succeeds (_compute_bias_sgs self grad_output)
   <-> (4 <= length (size grad_output))%nat) /\
  ((length (size grad_output) < 4)%nat ->
   _compute_bias_grad_batch self grad_output
   = Raise (IndexError "Dimension out of range") /\
   _compute_bias_sgs self grad_output
   = Raise (IndexError "Dimension out of range")).
Proof. apply bias_statistics_rank. Qed.

Lemma weight_statistics_without_input self grad_output :
  buffers self !! "input" = None ->
  _compute_weight_sgs self grad_output
  = Raise (AttributeError "'Conv2d' object has no attribute 'input'") /\
  (size grad_output <> [] ->
   _compute_weight_grad_batch self grad_output
   = Raise (AttributeError "'Conv2d' object has no attribute 'input'")).
Proof.
  intros Hin. unfold _compute_weight_sgs, _compute_weight_grad_batch, get_input, size_at.
  rewrite Hin. split; [done|]. by destruct (size grad_output).
Qed.

(** A backward pass on a layer that has seen no forward pass: with an
    extension active, a weight that requires a gradient and an output
    gradient of rank 4 or more, the backward hook raises [AttributeError]
    for the missing cached input and attaches nothing to the weight; but it
    has attached to a bias that requires a gradient the statistic of the
    first active extension by then, and leaves it there. *)
Theorem backward_hook_without_forward_pass
    (CTX : config.Context) (grad_input : list tensor) (g : tensor) (m : Conv2d) :
  buffers m !! "input" = None ->
  requires_grad (weight m) = true ->
  (4 <= length (size g))%nat ->
  config.is_active CTX config.BATCH_GRAD
  || config.is_active CTX config.SUM_GRAD_SQUARED = true ->
  let r := compute_first_order_info CTX grad_input [g] m in
  r.2 = Raise (AttributeError "'Conv2d' object has no attribute 'input'") /\
  weight r.1 = weight m /\
  forall b, bias m = Some b -> requires_grad b = true ->
    exists b' v,
      bias r.1 = Some b' /\
      (if config.is_active CTX config.BATCH_GRAD
       then _compute_bias_grad_batch m g = Ok v /\
            attrs b' !! "grad_batch" = Some v
       else _compute_bias_sgs m g = Ok v /\
            attrs b' !! "sum_grad_squared" = Some v).
Proof.
  intros Hin Hrg Hrank Hact r. subst r.
  destruct (bias_statistics_rank m g) as (Hb1 & Hb2 & _).
  apply Hb1 in Hrank as Hv1. apply Hb2 in Hrank as Hv2.
  destruct Hv1 as [v1 Hv1], Hv2 as [v2 Hv2].
  assert (Hne : size g <> []) by (destruct (size g); simpl in *; [lia|done]).
  unfold compute_first_order_info, clone_detach. simpl.
  unfold compute_grad_batch, compute_sum_grad_squared, hwhen, hbind, hread, hmodify.
  destruct (config.is_active CTX config.BATCH_GRAD);
    [|destruct (config.is_active CTX config.SUM_GRAD_SQUARED); [|done]].
  - destruct (bias m) as [b|] eqn:Hb; [destruct (requires_grad b) eqn:Hrb|];
      rewrite ?Hv1; simpl; rewrite ?Hrg;
      try change (_compute_weight_grad_batch (with_bias _ m) g)
        with (_compute_weight_grad_batch m g);
      rewrite (proj2 (weight_statistics_without_input m g Hin) Hne); simpl;
      split_and!; try done.
    + intros ? [= <-] _. rewrite Hb. simpl. eexists _, v1. split_and!; try done.
      simpl. by rewrite lookup_insert_eq.
    + rewrite Hb. by intros ? [= <-] ?; congruence.
  - destruct (bias m) as [b|] eqn:Hb; [destruct (requires_grad b) eqn:Hrb|];
      rewrite ?Hv2; simpl; rewrite ?Hrg;
      try change (_compute_weight_sgs (with_bias _ m) g)
        with (_compute_weight_sgs m g);
      rewrite (proj1 (weight_statistics_without_input m g Hin)); simpl;
      split_and!; try done.
    + intros ? [= <-] _. rewrite Hb. simpl. eexists _, v2. split_and!; try done.
      simpl. by rewrite lookup_insert_eq.
    + rewrite Hb. by intros ? [= <-] ?; congruence.
Qed.

(** The theorem on [example_layer], which has seen no input. *)
Lemma backward_hook_without_forward_pass_witness :
  let r := compute_first_order_info both_extensions [] [example_grad_output]
             example_layer in
  r.2 = Raise (AttributeError "'Conv2d' object has no attribute 'input'") /\
  weight r.1 = weight example_layer /\
  storage <$> (b ← bias r.1; attrs b !! "grad_batch") = Some [4; 1; 3; 1].
Proof.
  intros r.
  destruct (backward_hook_without_forward_pass both_extensions []
              example_grad_output example_layer)
    as (Hr & Hw & Hb); [reflexivity|reflexivity|simpl; lia|reflexivity|].
  split_and!; [exact Hr|exact Hw|reflexivity].
Defined.

(** The backward hook checks the number of output gradients first: given
    none or more than one it raises [ValueError] and leaves the module as
    it was, whether or not an extension is active; given one and no active
    extension it returns and leaves the module as it was. *)
Theorem backward_hook_guard
    (CTX : config.Context) (grad_input grad_output : list tensor) (m : Conv2d) :
  (length grad_output <> 1%nat ->
   compute_first_order_info CTX grad_input grad_output m
   = (m, Raise (ValueError "Cannot handle multi-output scenario"))) /\
  (length grad_output = 1%nat ->
   config.is_active CTX config.BATCH_GRAD = false ->
   config.is_active CTX config.SUM_GRAD_SQUARED = false ->
   compute_first_order_info CTX grad_input grad_output m = (m, Ok tt)).
Proof.
  unfold compute_first_order_info. split.
  - intros Hl. by rewrite bool_decide_eq_false_2.
  - intros Hl Hg Hs. rewrite bool_decide_eq_true_2 by done. simpl.
    destruct grad_output as [|g [|? ?]]; try done. simpl.
    unfold hbind, hwhen. by rewrite Hg, Hs.
Qed.

End conv2d_failures.

(** * Convolution: the hooks run again, and undone *)

Section conv2d_hook_algebra.
Import conv2d.

Lemma module_eq (m m' : Conv2d) :
  same_configuration m m' -> weight m' = weight m -> bias m' = bias m -> m' = m.
Proof.
  destruct m, m'. unfold same_configuration. simpl.
  intros (-> & -> & -> & -> & -> & -> & -> & ->) -> ->. done.
Qed.

Lemma parameter_eq (p p' : nnParameter) :
  data p' = data p -> requires_grad p' = requires_grad p -> attrs p' = attrs p ->
  p' = p.
Proof. destruct p, p'. simpl. by intros -> -> ->. Qed.

(** The forward hook keeps the last input only: a second forward pass
    leaves the module as if the first had not happened, and a second pass
    that raises leaves what the first has left. *)
Theorem store_input_last_wins (input1 input2 : list tensor) (m : Conv2d) :
  match (store_input input2 m).2 with
  | Ok _ => store_input input2 (store_input input1 m).1 = store_input input2 m
  | Raise e =>
      store_input input2 (store_input input1 m).1
      = ((store_input input1 m).1, Raise e)
  end.
Proof.
  rewrite !store_input_cases.
  destruct input2 as [|t2 [|? ?]]; simpl; try done.
  case_bool_decide; simpl; [|done].
  destruct input1 as [|t1 [|? ?]]; simpl; try done.
  case_bool_decide; simpl; [|done].
  unfold register_buffer. simpl. by rewrite insert_insert_eq.
Qed.

Lemma alike_attach d m : alike m (attach d m).
Proof. split_and!; try done. simpl. by destruct (bias m). Qed.

Lemma attach_empty m : attach (∅, ∅) m = m.
Proof.
  apply module_eq; try done.
  - apply parameter_eq; try done. simpl. by rewrite (left_id_L ∅ (∪)).
  - simpl. destruct (bias m) as [b|]; [|done]. simpl. f_equal.
    apply parameter_eq; try done. simpl. by rewrite (left_id_L ∅ (∪)).
Qed.

Lemma attach_attach d d' m :
  attach d' (attach d m) = attach (d'.1 ∪ d.1, d'.2 ∪ d.2) m.
Proof.
  apply module_eq; try done.
  - apply parameter_eq; try done. simpl. by rewrite (assoc_L (∪)).
  - simpl. destruct (bias m) as [b|]; [|done]. simpl. f_equal.
    apply parameter_eq; try done. simpl. by rewrite (assoc_L (∪)).
Qed.

Lemma attach_weight_attr name v m :
  with_weight (setattr name v) m = attach ({[name := v]}, ∅) m.
Proof.
  apply module_eq; try done.
  - apply parameter_eq; try done. simpl. by rewrite insert_union_singleton_l.
  - simpl. destruct (bias m) as [b|]; [|done]. simpl. f_equal.
    apply parameter_eq; try done. simpl. by rewrite (left_id_L ∅ (∪)).
Qed.

Lemma attach_bias_attr name v m :
  with_bias (setattr name v) m = attach (∅, {[name := v]}) m.
Proof.
  apply module_eq; try done.
  - apply parameter_eq; try done. simpl. by rewrite (left_id_L ∅ (∪)).
  - simpl. destruct (bias m) as [b|]; [|done]. simpl. f_equal.
    apply parameter_eq; try done. simpl. by rewrite insert_union_singleton_l.
Qed.

Lemma attaches_hraise e : attaches (hraise e).
Proof.
  exists (fun _ => (∅, ∅)), (fun _ => Raise e). split; [done|].
  intros m. by rewrite attach_empty.
Qed.

Lemma attaches_hbind (c1 c2 : hook unit) :
  attaches c1 -> attaches c2 -> attaches (c1 >> c2).
Proof.
  intros (d1 & r1 & S1 & E1) (d2 & r2 & S2 & E2).
  exists (fun m => match r1 m with
                   | Ok _ => ((d2 m).1 ∪ (d1 m).1, (d2 m).2 ∪ (d1 m).2)
                   | Raise _ => d1 m
                   end),
         (fun m => match r1 m with Ok _ => r2 m | Raise e => Raise e end).
  split.
  - intros m m' Ha. destruct (S1 m m' Ha) as [-> ->], (S2 m m' Ha) as [-> ->]. done.
  - intros m. unfold hbind. rewrite E1. destruct (r1 m) as [[]|e]; [|done].
    rewrite E2, attach_attach.
    by destruct (S2 m (attach (d1 m) m) (alike_attach _ _)) as [-> ->].
Qed.

Lemma attaches_hwhen (cond : Conv2d -> bool) (c : hook unit) :
  (forall m m', alike m m' -> cond m' = cond m) ->
  attaches c -> attaches (hwhen cond c).
Proof.
  intros Hcond (d & r & S & E).
  exists (fun m => if cond m then d m else (∅, ∅)),
         (fun m => if cond m then r m else Ok tt).
  split.
  - intros m m' Ha. rewrite (Hcond m m' Ha). destruct (S m m' Ha) as [-> ->]. done.
  - intros m. unfold hwhen. destruct (cond m); [done|]. by rewrite attach_empty.
Qed.

Lemma attaches_weight_update name (f : Conv2d -> result tensor) :
  (forall m m', alike m m' -> f m' = f m) ->
  attaches (hwhen (fun self => requires_grad (weight self))
              (hbind (hread f) (fun v => hmodify (with_weight (setattr name v))))).
Proof.
  intros Hf. apply attaches_hwhen; [by intros m m' (_ & _ & -> & _)|].
  exists (fun m => match f m with Ok v => ({[name := v]}, ∅) | Raise _ => (∅, ∅) end),
         (fun m => match f m with Ok _ => Ok tt | Raise e => Raise e end).
  split; [by intros m m' ->%Hf|].
  intros m. unfold hbind, hread, hmodify. destruct (f m) as [v|e].
  - by rewrite attach_weight_attr.
  - by rewrite attach_empty.
Qed.

Lemma attaches_bias_update name (f : Conv2d -> result tensor) :
  (forall m m', alike m m' -> f m' = f m) ->
  attaches (hwhen (fun self => match bias self with
                               | Some b => requires_grad b
                               | None => false
                               end)
              (hbind (hread f) (fun v => hmodify (with_bias (setattr name v))))).
Proof.
  intros Hf. apply attaches_hwhen.
  { intros m m' (_ & _ & _ & Hb). destruct (bias m), (bias m'); try done. apply Hb. }
  exists (fun m => match f m with Ok v => (∅, {[name := v]}) | Raise _ => (∅, ∅) end),
         (fun m => match f m with Ok _ => Ok tt | Raise e => Raise e end).
  split; [by intros m m' ->%Hf|].
  intros m. unfold hbind, hread, hmodify. destruct (f m) as [v|e].
  - by rewrite attach_bias_attr.
  - by rewrite attach_empty.
Qed.

(** The weight statistics read the hyperparameters, the cached input and
    the size of the weight, and nothing that the hooks attach. *)
Lemma alike_weight_statistics m m' g :
  alike m m' ->
  _compute_weight_grad_batch m' g = _compute_weight_grad_batch m g /\
  _compute_weight_sgs m' g = _compute_weight_sgs m g.
Proof.
  intros (Hc & Hd & _ & _).
  unfold _compute_weight_grad_batch, _compute_weight_sgs, get_input, unfold.
  unfold same_configuration in Hc. destruct_and!.
  repeat match goal with H : _ m' = _ m |- _ => rewrite H; clear H end.
  by rewrite Hd.
Qed.

Lemma attaches_compute_first_order_info CTX grad_input grad_output :
  attaches (compute_first_order_info CTX grad_input grad_output).
Proof.
  unfold compute_first_order_info.
  case_bool_decide; simpl; [|apply attaches_hraise].
  destruct (grad_output !! 0%nat) as [g|]; [|apply attaches_hraise].
  apply attaches_hbind; (apply attaches_hwhen; [done|]); apply attaches_hbind.
  - by apply attaches_bias_update.
  - apply attaches_weight_update. intros m m' Ha. by apply alike_weight_statistics.
  - by apply attaches_bias_update.
  - apply attaches_weight_update. intros m m' Ha. by apply alike_weight_statistics.
Qed.

(** The backward hook is idempotent: run a second time with the same output
    gradients, on the module that the first run has left behind, it returns
    or raises what the first run did and leaves that module as it is. *)
Theorem backward_hook_idempotent
    (CTX : config.Context) (grad_input grad_output : list tensor) (m : Conv2d) :
  compute_first_order_info CTX grad_input grad_output
    (compute_first_order_info CTX grad_input grad_output m).1
  = compute_first_order_info CTX grad_input grad_output m.
Proof.
  destruct (attaches_compute_first_order_info CTX grad_input grad_output)
    as (d & r & S & E).
  rewrite !E. simpl.
  destruct (S m (attach (d m) m) (alike_attach _ _)) as [-> ->].
  rewrite attach_attach. simpl.
  by rewrite !(idemp_L (∪)), <- surjective_pairing.
Qed.

(** The backward hook computes its statistics from scratch: on two modules
    that differ at most in the attributes attached to their parameters
    (artifacts of an earlier pass, say) it returns or raises the same, and
    every attribute that it changes on the one it sets to the same value on
    the other. *)
Theorem backward_hook_ignores_stale_artifacts
    (CTX : config.Context) (grad_input grad_output : list tensor)
    (m m0 : Conv2d) :
  alike m m0 ->
  let fresh := compute_first_order_info CTX grad_input grad_output m in
  let again := compute_first_order_info CTX grad_input grad_output m0 in
  again.2 = fresh.2 /\
  forall name,
    (attrs (weight fresh.1) !! name <> attrs (weight m) !! name ->
     attrs (weight again.1) !! name = attrs (weight fresh.1) !! name) /\
    match bias fresh.1, bias again.1, bias m with
    | Some b, Some b', Some b0 =>
        attrs b !! name <> attrs b0 !! name -> attrs b' !! name = attrs b !! name
    | None, None, None => True
    | _, _, _ => False
    end.
Proof.
  intros Ha fresh again. subst fresh again.
  destruct (attaches_compute_first_order_info CTX grad_input grad_output)
    as (d & r & S & E).
  rewrite !E. simpl.
  destruct (S m m0 Ha) as [-> ->].
  split; [done|]. intros name. split.
  - rewrite !lookup_union.
    by destruct ((d m).1 !! name), (attrs (weight m0) !! name),
         (attrs (weight m) !! name).
  - destruct Ha as (_ & _ & _ & Hb).
    destruct (bias m) as [b|], (bias m0) as [b0|]; simpl; try done.
    rewrite !lookup_union.
    by destruct ((d m).2 !! name), (attrs b0 !! name), (attrs b !! name).
Qed.

(** The theorem on [example_layer_after_forward], with and without a stale
    [grad_batch] on its weight. *)
Lemma backward_hook_ignores_stale_artifacts_witness :
  (compute_first_order_info both_extensions [] [example_grad_output]
     example_layer_with_stale_artifact).2
  = (compute_first_order_info both_extensions [] [example_grad_output]
       example_layer_after_forward).2 /\
  attrs (weight (compute_first_order_info both_extensions [] [example_grad_output]
                   example_layer_with_stale_artifact).1) !! "grad_batch"
  = attrs (weight (compute_first_order_info both_extensions [] [example_grad_output]
                     example_layer_after_forward).1) !! "grad_batch".
Proof.
  destruct (backward_hook_ignores_stale_artifacts both_extensions []
              [example_grad_output] example_layer_after_forward
              example_layer_with_stale_artifact) as [Hr Ha].
  { unfold alike, same_configuration. simpl. split_and!; reflexivity. }
  split; [exact Hr|]. apply (Ha "grad_batch"). vm_compute. discriminate.
Defined.

End conv2d_hook_algebra.

Section conv2d_clearing_algebra.
Import conv2d.

Lemma clear_attr_eq name (m : Conv2d) :
  (except_AttributeError_pass (del_weight_attr name) >>
   except_AttributeError_pass (del_bias_attr name)) m
  = (with_weight (without_attr name) (with_bias (without_attr name) m), Ok tt).
Proof.
  pose proof (clear_attr_spec name m) as H. cbv zeta in H.
  set (r := (except_AttributeError_pass (del_weight_attr name) >>
             except_AttributeError_pass (del_bias_attr name)) m) in *.
  destruct r as [m' r]. simpl in H. destruct H as (-> & Hc & Hw & Hb).
  f_equal. symmetry. apply module_eq.
  - unfold same_configuration in *. simpl. destruct_and!. split_and!; congruence.
  - destruct Hw as (? & ? & ?). by apply parameter_eq.
  - simpl. destruct (bias m) as [b|]; simpl.
    + destruct Hb as (b' & -> & ? & ? & ?). f_equal. by apply parameter_eq.
    + done.
Qed.

(** Clearing twice is clearing once, and the two clearing methods commute:
    either order leaves the same module. *)
Theorem clearing_idempotent_and_commutes (m : Conv2d) :
  clear_grad_batch (clear_grad_batch m).1 = clear_grad_batch m /\
  clear_sum_grad_squared (clear_sum_grad_squared m).1 = clear_sum_grad_squared m /\
  clear_sum_grad_squared (clear_grad_batch m).1
  = clear_grad_batch (clear_sum_grad_squared m).1.
Proof.
  unfold clear_grad_batch, clear_sum_grad_squared. rewrite !clear_attr_eq. simpl.
  split_and!; f_equal; apply module_eq; try done.
  - apply parameter_eq; try done. simpl. by rewrite delete_delete_eq.
  - simpl. destruct (bias m); [|done]. simpl. f_equal.
    apply parameter_eq; try done. simpl. by rewrite delete_delete_eq.
  - apply parameter_eq; try done. simpl. by rewrite delete_delete_eq.
  - simpl. destruct (bias m); [|done]. simpl. f_equal.
    apply parameter_eq; try done. simpl. by rewrite delete_delete_eq.
  - apply parameter_eq; try done. simpl. by rewrite delete_delete.
  - simpl. destruct (bias m); [|done]. simpl. f_equal.
    apply parameter_eq; try done. simpl. by rewrite delete_delete.
Qed.

Lemma delete_both_restores (a a' : gmap string tensor) :
  a !! "grad_batch" = None -> a !! "sum_grad_squared" = None ->
  (forall name, name <> "grad_batch" -> name <> "sum_grad_squared" ->
                a' !! name = a !! name) ->
  delete "sum_grad_squared" (delete "grad_batch" a') = a.
Proof.
  intros H1 H2 H. apply map_eq. intros name.
  destruct (decide (name = "sum_grad_squared")) as [->|Hs];
    [by rewrite lookup_delete_eq|].
  rewrite lookup_delete_ne by done.
  destruct (decide (name = "grad_batch")) as [->|Hg];
    [by rewrite lookup_delete_eq|].
  rewrite lookup_delete_ne by done. by apply H.
Qed.

Lemma touches_only_attached_names CTX rg p p' name :
  touches_only (attached CTX rg) p p' ->
  name <> "grad_batch" -> name <> "sum_grad_squared" ->
  attrs p' !! name = attrs p !! name.
Proof.
  intros (_ & _ & Ha) Hg Hs. apply Ha. unfold attached.
  intros [Hin|Hin]%elem_of_app.
  - destruct (config.is_active CTX config.BATCH_GRAD), rg;
      simpl in Hin; try (by apply elem_of_nil in Hin).
    by apply list_elem_of_singleton in Hin.
  - destruct (config.is_active CTX config.SUM_GRAD_SQUARED), rg;
      simpl in Hin; try (by apply elem_of_nil in Hin).
    by apply list_elem_of_singleton in Hin.
Qed.

(** Clearing undoes the backward hook: on a module whose parameters carry
    neither artifact, the backward hook followed by [clear_grad_batch] and
    [clear_sum_grad_squared] leaves the module exactly as it was, whatever
    the hook has attached and whether it has returned or raised. *)
Theorem clearing_undoes_backward_hook
    (CTX : config.Context) (grad_input grad_output : list tensor) (m : Conv2d) :
  attrs (weight m) !! "grad_batch" = None ->
  attrs (weight m) !! "sum_grad_squared" = None ->
  (forall b, bias m = Some b ->
     attrs b !! "grad_batch" = None /\ attrs b !! "sum_grad_squared" = None) ->
  (clear_grad_batch >> clear_sum_grad_squared)
    (compute_first_order_info CTX grad_input grad_output m).1
  = (m, Ok tt).
Proof.
  intros Hg Hs Hb.
  destruct (preserves_compute_first_order_info CTX grad_input grad_output m)
    as (Hc & Hw & Hbias).
  set (m1 := (compute_first_order_info CTX grad_input grad_output m).1) in *.
  unfold hbind at 1. unfold clear_grad_batch, clear_sum_grad_squared.
  rewrite !clear_attr_eq. f_equal. apply module_eq.
  - unfold same_configuration in *. simpl. destruct_and!. split_and!; congruence.
  - apply parameter_eq; try apply Hw. simpl.
    apply delete_both_restores; try done.
    intros name. by eapply touches_only_attached_names.
  - simpl. destruct (bias m) as [b|], (bias m1) as [b1|]; try done. simpl. f_equal.
    destruct (Hb b eq_refl).
    apply parameter_eq; try apply Hbias. simpl.
    apply delete_both_restores; try done.
    intros name. by eapply touches_only_attached_names.
Qed.

(** The theorem on [example_layer_after_forward], with both extensions
    active. *)
Lemma clearing_undoes_backward_hook_witness :
  (clear_grad_batch >> clear_sum_grad_squared)
    (compute_first_order_info both_extensions [] [example_grad_output]
       example_layer_after_forward).1
  = (example_layer_after_forward, Ok tt).
Proof.
  apply clearing_undoes_backward_hook; [reflexivity|reflexivity|].
  intros b [= <-]. split; reflexivity.
Defined.

End conv2d_clearing_algebra.

(** * Convolution: the artifacts that the backward hook stores *)

Section conv2d_stored.
Import conv2d.

Lemma stored_weight_grad_batch self grad_output self' :
  compute_grad_batch grad_output self = (self', Ok tt) ->
  requires_grad (weight self) = true ->
  exists g, _compute_weight_grad_batch self grad_output = Ok g /\
            attrs (weight self') !! "grad_batch" = Some g.
Proof.
  unfold compute_grad_batch, hbind, hwhen, hread, hmodify.
  intros H Hrg. revert H.
  destruct (bias self) as [b|] eqn:Hb; [destruct (requires_grad b)|];
    try destruct (_compute_bias_grad_batch self grad_output) as [sb|e]; simpl;
    rewrite ?Hrg; try done;
    change (_compute_weight_grad_batch (with_bias _ self) grad_output)
      with (_compute_weight_grad_batch self grad_output);
    destruct (_compute_weight_grad_batch self grad_output) as [s|e'];
    simpl; try done; intros [= <-]; exists s; simpl;
    by rewrite lookup_insert_eq.
Qed.

Lemma stored_bias_grad_batch self grad_output self' b :
  compute_grad_batch grad_output self = (self', Ok tt) ->
  bias self = Some b -> requires_grad b = true ->
  exists g b', _compute_bias_grad_batch self grad_output = Ok g /\
               bias self' = Some b' /\
               attrs b' !! "grad_batch" = Some g.
Proof.
  unfold compute_grad_batch, hbind, hwhen, hread, hmodify.
  intros H Hb Hrg. revert H. rewrite Hb, Hrg.
  destruct (_compute_bias_grad_batch self grad_output) as [sb|e]; simpl; [|done].
  destruct (requires_grad (weight self)); simpl.
  - change (_compute_weight_grad_batch (with_bias _ self) grad_output)
      with (_compute_weight_grad_batch self grad_output).
    destruct (_compute_weight_grad_batch self grad_output) as [s|e']; simpl; [|done].
    intros [= <-]. simpl. rewrite Hb. simpl. eexists _, _. split_and!; try done.
    simpl. by rewrite lookup_insert_eq.
  - intros [= <-]. simpl. rewrite Hb. eexists _, _. split_and!; try done.
    simpl. by rewrite lookup_insert_eq.
Qed.

(** Whenever [compute_grad_batch] completes, each parameter that requires a
    gradient carries its per-example gradient as [grad_batch]: for the
    weight a well-formed tensor of the size of the weight with the batch
    axis in front; for the bias the output gradient without its two
    spatial axes (the size of the bias itself is not consulted). *)
Theorem grad_batch_has_leading_batch_axis
    (self : Conv2d) (grad_output : tensor) (self' : Conv2d) :
  compute_grad_batch grad_output self = (self', Ok tt) ->
  (requires_grad (weight self) = true ->
   exists g batch_size,
     attrs (weight self') !! "grad_batch" = Some g /\
     _compute_weight_grad_batch self grad_output = Ok g /\
     size grad_output !! 0%nat = Some batch_size /\
     size g = batch_size :: size (data (weight self)) /\
     well_formed g) /\
  (forall bias0, bias self = Some bias0 -> requires_grad bias0 = true ->
   exists g bias',
     bias self' = Some bias' /\
     attrs bias' !! "grad_batch" = Some g /\
     _compute_bias_grad_batch self grad_output = Ok g /\
     size g = delete 2%nat (delete 3%nat (size grad_output))).
Proof.
  intros Hrun. split.
  - intros Hrg.
    destruct (stored_weight_grad_batch _ _ _ Hrun Hrg) as (g & Hg & Hattr).
    destruct (weight_grad_batch_well_formed _ _ _ Hg) as (Hwf & B & HB & Hsz).
    exists g, B. split_and!; try done.
    unfold size_at in HB. by destruct (size grad_output !! 0%nat); simplify_eq.
  - intros bias0 Hb Hrg.
    destruct (stored_bias_grad_batch _ _ _ _ Hrun Hb Hrg) as (g & b' & Hg & Hb' & Hattr).
    exists g, b'. split_and!; try done.
    pose proof (bias_grad_batch_rank self grad_output) as Hr.
    rewrite Hg in Hr. apply Hr.
Qed.

(** The theorem on the two-example batch of [example_grad_output]. *)
Lemma grad_batch_has_leading_batch_axis_witness :
  let self' := (compute_grad_batch example_grad_output example_layer_after_forward).1 in
  size <$> attrs (weight self') !! "grad_batch" = Some [2; 2; 1; 2; 2]%nat /\
  size <$> (b ← bias self'; attrs b !! "grad_batch") = Some [2; 2]%nat.
Proof.
  intros self'.
  destruct (grad_batch_has_leading_batch_axis example_layer_after_forward
              example_grad_output self') as [Hw Hb]; [reflexivity|].
  destruct (Hw eq_refl) as (g & B & Ha & _ & HB & Hs & _).
  injection HB as <-. rewrite Ha. simpl. rewrite Hs. split; [reflexivity|].
  destruct (Hb _ eq_refl eq_refl) as (g' & b' & -> & Ha' & _ & Hs').
  simpl. rewrite Ha'. simpl. by rewrite Hs'.
Defined.

Lemma frame_alike names m m' : frame names m m' -> alike m m'.
Proof.
  intros (Hc & (Hd & Hr & _) & Hb). split_and!; try done.
  destruct (bias m), (bias m'); try done. by destruct Hb as (? & ? & _).
Qed.

(** With both extensions active, the two artifacts that a completed
    backward hook leaves on a parameter that requires a gradient belong
    together: [sum_grad_squared] is the sum over the batch axis of the
    elementwise square of [grad_batch]. *)
Theorem backward_hook_artifacts_agree
    (CTX : config.Context) (grad_input grad_output : list tensor) (m m' : Conv2d) :
  config.is_active CTX config.BATCH_GRAD = true ->
  config.is_active CTX config.SUM_GRAD_SQUARED = true ->
  compute_first_order_info CTX grad_input grad_output m = (m', Ok tt) ->
  (requires_grad (weight m) = true ->
   exists g s,
     attrs (weight m') !! "grad_batch" = Some g /\
     attrs (weight m') !! "sum_grad_squared" = Some s /\
     sum_of_squares_over_batch g = Ok s) /\
  (forall b, bias m = Some b -> requires_grad b = true ->
   exists b' g s,
     bias m' = Some b' /\
     attrs b' !! "grad_batch" = Some g /\
     attrs b' !! "sum_grad_squared" = Some s /\
     sum_of_squares_over_batch g = Ok s).
Proof.
  intros Hg Hs. unfold compute_first_order_info.
  case_bool_decide; simpl; [|done].
  destruct (grad_output !! 0%nat) as [go|]; [|done].
  unfold hbind at 1, hwhen, clone_detach. rewrite Hg, Hs.
  destruct (compute_grad_batch go m) as [m1 [[]|e]] eqn:H1; [|done].
  intros H2.
  pose proof (preserves_compute_grad_batch go m) as F1. rewrite H1 in F1. simpl in F1.
  pose proof (preserves_compute_sum_grad_squared go m1) as F2.
  rewrite H2 in F2. simpl in F2.
  pose proof (frame_alike _ _ _ F1) as A1.
  destruct F1 as (_ & (_ & Hr1 & _) & Hb1).
  destruct F2 as (_ & (_ & _ & Hw2) & Hb2).
  split.
  - intros Hrg.
    destruct (stored_weight_grad_batch _ _ _ H1 Hrg) as (g & Hwg & Hag).
    destruct (stored_weight_sgs _ _ _ H2) as (s & Hws & Has); [congruence|].
    exists g, s. split_and!; [|done|].
    + rewrite Hw2; [done|]. rewrite Hr1, Hrg.
      by intros [=]%list_elem_of_singleton.
    + rewrite (proj2 (alike_weight_statistics _ _ go A1)) in Hws.
      by apply (weight_statistics_of_contraction m go).
  - intros b Hb Hrg.
    destruct (stored_bias_grad_batch _ _ _ _ H1 Hb Hrg) as (g & b1 & Hbg & Hb1' & Hag).
    rewrite Hb, Hb1' in Hb1. destruct Hb1 as (_ & Hrb1 & _).
    destruct (stored_bias_sgs _ _ _ _ H2 Hb1') as (s & b2 & Hbs & Hb2' & Has);
      [congruence|].
    rewrite Hb1', Hb2' in Hb2. destruct Hb2 as (_ & _ & Ha2).
    exists b2, g, s. split_and!; [done| |done|].
    + rewrite Ha2; [done|]. rewrite Hrb1, Hrg.
      by intros [=]%list_elem_of_singleton.
    + rewrite bias_sgs_is_sum_of_squares in Hbs.
      change (_compute_bias_grad_batch m1 go) with (_compute_bias_grad_batch m go) in Hbs.
      by rewrite Hbg in Hbs.
Qed.

(** The theorem on [example_layer_after_forward]. *)
Lemma backward_hook_artifacts_agree_witness :
  let m' := (compute_first_order_info both_extensions [] [example_grad_output]
               example_layer_after_forward).1 in
  exists g s,
    attrs (weight m') !! "grad_batch" = Some g /\
    attrs (weight m') !! "sum_grad_squared" = Some s /\
    sum_of_squares_over_batch g = Ok s.
Proof.
  intros m'.
  destruct (backward_hook_artifacts_agree both_extensions [] [example_grad_output]
              example_layer_after_forward m') as [Hw _];
    [reflexivity|reflexivity|reflexivity|].
  apply Hw. reflexivity.
Defined.

End conv2d_stored.

(** * The diagonal-Hessian extension of ReLU *)

Section diagh_relu_facts.
Import diagh_relu.

Lemma backpropagate_sqrt_h_unbound :
  resolve_name "backpropagate_sqrt_h"
  = Raise (NameError "name 'backpropagate_sqrt_h' is not defined").
Proof. reflexivity. Qed.

(** C9.  When the cached input of the ReLU module requires a gradient,
    [DiagHReLU.apply] raises [NameError]: the bare name
    [backpropagate_sqrt_h] is bound neither locally, nor at module level,
    nor as a builtin (it is a method of the class).  When it does not,
    [apply] returns.  In both cases the context, and with it every
    backpropagated square-root factor, is left as it was. *)
Theorem DiagHReLU_apply_unresolved_name
    (module : ReLU) (grad_input grad_output : list tensor) (CTX : config.Context) :
  apply module grad_input grad_output CTX =
    (CTX,
     if requires_grad (input0 module)
     then Raise (NameError "name 'backpropagate_sqrt_h' is not defined")
     else Ok tt).
Proof.
  unfold apply. rewrite backpropagate_sqrt_h_unbound.
  by destruct (requires_grad (input0 module)).
Qed.

Lemma backpropagate_loop_spec
    (jmp : ReLU -> list tensor -> list tensor -> tensor -> result tensor)
    module grad_input grad_output (sqrt_h_outs : nat) (s : memory)
    (todo finished : list tensor) :
  lists s sqrt_h_outs = finished ++ todo ->
  exists n vs res s',
    backpropagate_loop jmp (length todo) (length finished)
      module grad_input grad_output sqrt_h_outs s = (s', res) /\
    (n <= length todo)%nat /\
    Forall2 (fun t v => jmp module grad_input grad_output t = Ok v) (take n todo) vs /\
    lists s' sqrt_h_outs = finished ++ vs ++ drop n todo /\
    (forall l, l <> sqrt_h_outs -> lists s' l = lists s l) /\
    CTX_backpropagated_sqrt_h s' = CTX_backpropagated_sqrt_h s /\
    match res with
    | Ok _ => n = length todo
    | Raise e => exists t, todo !! n = Some t /\
                           jmp module grad_input grad_output t = Raise e
    end.
Proof.
  revert s finished. induction todo as [|t todo IH]; intros s finished Hs.
  - exists 0%nat, [], (Ok tt), s. by split_and!.
  - cbn [length backpropagate_loop]. rewrite Hs.
    rewrite list_lookup_middle by done.
    destruct (jmp module grad_input grad_output t) as [v|e] eqn:Hv.
    + destruct (IH (setitem sqrt_h_outs (length finished) v s) (finished ++ [v]))
        as (n & vs & res & s' & Hrun & Hn & Hvs & Hl & Hother & Hctx & Hres).
      { simpl. rewrite bool_decide_eq_true_2 by done. rewrite Hs.
        rewrite insert_app_r_alt, Nat.sub_diag by done. simpl.
        by rewrite <- app_assoc. }
      rewrite length_app, Nat.add_1_r in Hrun.
      exists (S n), (v :: vs), res, s'. simpl. split_and!.
      * done.
      * lia.
      * by constructor.
      * by rewrite Hl, <- app_assoc.
      * intros l Hne. rewrite Hother by done. simpl.
        by rewrite bool_decide_eq_false_2.
      * done.
      * destruct res; [lia|done].
    + exists 0%nat, [], (Raise e), s. simpl.
      split_and!; [done|lia|constructor|done|done|done|by exists t].
Qed.

(** The method [backpropagate_sqrt_h] itself, which [apply] never reaches:
    with a [jac_mat_prod] that returns, it replaces every element of the
    list object that it is given by its product with the Jacobian of the
    ReLU, in that object, and leaves [CTX._backpropagated_sqrt_h] naming
    that object, whichever object it named before; no other list object
    changes. *)
Theorem backpropagate_sqrt_h_method
    (jmp : ReLU -> list tensor -> list tensor -> tensor -> tensor)
    (module : ReLU) (grad_input grad_output : list tensor) (sqrt_h_outs : nat)
    (sqrt_h_outs_signs : list Z) (s : memory) :
  let r := backpropagate_sqrt_h (fun m gi go t => Ok (jmp m gi go t))
             module grad_input grad_output sqrt_h_outs sqrt_h_outs_signs s in
  r.2 = Ok tt /\
  CTX_backpropagated_sqrt_h r.1 = sqrt_h_outs /\
  lists r.1 sqrt_h_outs = jmp module grad_input grad_output <$> lists s sqrt_h_outs /\
  forall l, l <> sqrt_h_outs -> lists r.1 l = lists s l.
Proof.
  intros r. subst r. unfold backpropagate_sqrt_h.
  destruct (backpropagate_loop_spec (fun m gi go t => Ok (jmp m gi go t))
              module grad_input grad_output sqrt_h_outs s
              (lists s sqrt_h_outs) [] eq_refl)
    as (n & vs & res & s' & Hrun & Hn & Hvs & Hl & Hother & Hctx & Hres).
  simpl in Hrun. rewrite Hrun.
  destruct res as [[]|e].
  - subst n. rewrite take_ge, drop_ge, app_nil_r in * by lia. simpl in *.
    split_and!; [done..| |done].
    rewrite Hl. clear -Hvs.
    induction Hvs as [|t v ts vs' [= <-] _ IH]; [done|]. csimpl. by rewrite IH.
  - by destruct Hres as (t & _ & [=]).
Qed.

End diagh_relu_facts.

(** * The diagonal-Hessian extension of ReLU: the update in place *)

Section diagh_relu_partial.
Import diagh_relu.

(** The method [backpropagate_sqrt_h] updates the list object that it is
    given in place, whatever [jac_mat_prod] does: it keeps the length of
    the list and every other list object; it replaces the elements in
    order by their products with the Jacobian up to the first element on
    which [jac_mat_prod] raises, leaves that element and the later ones as
    they were, and raises what [jac_mat_prod] raised.  When it returns,
    [CTX._backpropagated_sqrt_h] names the list object that it was given;
    when it raises, the attribute names the object that it named before:
    a failure in the middle leaves the list half updated, and visibly so
    in the context when the list is the one that the context holds. *)
Theorem backpropagate_sqrt_h_updates_in_place
    (jac_mat_prod : ReLU -> list tensor -> list tensor -> tensor -> result tensor)
    (module : ReLU) (grad_input grad_output : list tensor) (sqrt_h_outs : nat)
    (sqrt_h_outs_signs : list Z) (s : memory) :
  let r := backpropagate_sqrt_h jac_mat_prod module grad_input grad_output
             sqrt_h_outs sqrt_h_outs_signs s in
  let old := lists s sqrt_h_outs in
  let new := lists r.1 sqrt_h_outs in
  (forall l, l <> sqrt_h_outs -> lists r.1 l = lists s l) /\
  length new = length old /\
  exists n,
    (n <= length old)%nat /\
    Forall2 (fun t v => jac_mat_prod module grad_input grad_output t = Ok v)
      (take n old) (take n new) /\
    drop n new = drop n old /\
    match r.2 with
    | Ok _ => n = length old /\ CTX_backpropagated_sqrt_h r.1 = sqrt_h_outs
    | Raise e => (exists t, old !! n = Some t /\
                            jac_mat_prod module grad_input grad_output t = Raise e) /\
                 CTX_backpropagated_sqrt_h r.1 = CTX_backpropagated_sqrt_h s
    end.
Proof.
  intros r old new. subst r old new. unfold backpropagate_sqrt_h.
  destruct (backpropagate_loop_spec jac_mat_prod module grad_input grad_output
              sqrt_h_outs s (lists s sqrt_h_outs) [] eq_refl)
    as (n & vs & res & s' & Hrun & Hn & Hvs & Hl & Hother & Hctx & Hres).
  simpl in Hrun. rewrite Hrun. simpl in Hl.
  pose proof (Forall2_length _ _ _ Hvs) as Hlen. rewrite length_take in Hlen.
  assert (Hnew : lists (match res with
                        | Ok _ => (set_CTX_backpropagated_sqrt_h sqrt_h_outs s', Ok tt)
                        | Raise e => (s', Raise e)
                        end).1 sqrt_h_outs = vs ++ drop n (lists s sqrt_h_outs)).
  { by destruct res. }
  split_and!.
  - intros l Hne. destruct res; simpl; by apply Hother.
  - rewrite Hnew, length_app, length_drop. lia.
  - exists n. rewrite Hnew. split_and!; try done.
    + rewrite take_app_length' by lia. done.
    + rewrite drop_app_length' by lia. done.
    + destruct res as [[]|e]; simpl; by split.
Qed.

End diagh_relu_partial.

(** * The parallel composite: partitions *)

Section parallel_partitions.
Import parallel.
Local Open Scope nat_scope.

Lemma ceil_div_share q r k :
  r < S k -> ceil_div (q * S k + r) (S k) = q + (if bool_decide (r = 0) then 0 else 1).
Proof.
  intros Hr. unfold ceil_div. case_bool_decide as H0.
  - subst r. replace (q + 0) with q by lia. symmetry. apply (Nat.div_unique _ _ q k); lia.
  - symmetry. apply (Nat.div_unique _ _ (q + 1) (r - 1)); lia.
Qed.

Lemma pack_S T k :
  pack T (S k) = ceil_div T (S k) :: pack (T - ceil_div T (S k)) k.
Proof. reflexivity. Qed.

(** The greedy packing puts the larger blocks first. *)
Lemma pack_closed_form q r k :
  r < S k ->
  pack (q * S k + r) (S k) = replicate r (q + 1) ++ replicate (S k - r) q.
Proof.
  revert r. induction k as [|k IH]; intros r Hr.
  - assert (r = 0) as -> by lia. rewrite pack_S.
    rewrite ceil_div_share by lia. simpl. f_equal. lia.
  - rewrite pack_S. rewrite ceil_div_share by done.
    destruct r as [|r].
    + rewrite bool_decide_eq_true_2 by done.
      replace (q * S (S k) + 0 - (q + 0)) with (q * S k + 0) by lia.
      rewrite IH by lia. simpl. f_equal. lia.
    + rewrite bool_decide_eq_false_2 by done.
      replace (q * S (S k) + S r - (q + 1)) with (q * S k + r) by lia.
      rewrite IH by lia. simpl. done.
Qed.

Lemma sum_list_replicate_app a b n m :
  sum_list (replicate n a ++ replicate m b) = n * a + m * b.
Proof. by rewrite sum_list_with_app, !sum_list_replicate. Qed.

Lemma pack_all T k :
  1 <= k -> k <= T ->
  pack T k = replicate (T `mod` k) (T `div` k + 1)
             ++ replicate (k - T `mod` k) (T `div` k).
Proof.
  intros Hk HT. destruct k as [|k]; [lia|].
  pose proof (Nat.div_mod T (S k) ltac:(lia)) as Hdm.
  pose proof (Nat.mod_upper_bound T (S k) ltac:(lia)) as Hm.
  rewrite Hdm at 1. rewrite (Nat.mul_comm (S k)). by apply pack_closed_form.
Qed.

Lemma pack_units T : pack T T = replicate T 1.
Proof.
  destruct T as [|T]; [done|].
  replace (S T) with (1 * S T + 0) at 1 by lia.
  rewrite pack_closed_form by lia. simpl. f_equal.
Qed.

Lemma compute_out_features_list_large c k :
  total_out_features c <= k ->
  compute_out_features_list c k = replicate (total_out_features c) 1.
Proof.
  intros H. unfold compute_out_features_list.
  rewrite Nat.min_r by done. apply pack_units.
Qed.

Lemma compute_out_features_list_small c k :
  1 <= k -> k <= total_out_features c ->
  compute_out_features_list c k
  = replicate (total_out_features c `mod` k) (total_out_features c `div` k + 1)
    ++ replicate (k - total_out_features c `mod` k) (total_out_features c `div` k).
Proof.
  intros Hk H. unfold compute_out_features_list.
  rewrite Nat.min_l by done. by apply pack_all.
Qed.

Lemma sum_compute_out_features_list c k :
  1 <= k -> sum_list (compute_out_features_list c k) = total_out_features c.
Proof.
  intros Hk. destruct (decide (total_out_features c <= k)) as [H|H].
  - rewrite compute_out_features_list_large by done.
    rewrite sum_list_replicate. lia.
  - rewrite compute_out_features_list_small by lia.
    rewrite sum_list_replicate_app.
    pose proof (Nat.div_mod (total_out_features c) k ltac:(lia)).
    pose proof (Nat.mod_upper_bound (total_out_features c) k ltac:(lia)).
    nia.
Qed.

Lemma ceil_div_floor T k :
  1 <= k ->
  ceil_div T k = T `div` k + (if bool_decide (T `mod` k = 0) then 0 else 1).
Proof.
  intros Hk. destruct k as [|k]; [lia|].
  pose proof (Nat.div_mod T (S k) ltac:(lia)) as Hdm.
  pose proof (Nat.mod_upper_bound T (S k) ltac:(lia)) as Hm.
  rewrite Hdm at 1. rewrite (Nat.mul_comm (S k)). by apply ceil_div_share.
Qed.

(** C2.  For a target block count [k >= 1], the partition of [merge(k)] has
    at most [k] blocks; it consists of blocks of size [ceil(T / k)] followed
    by blocks of size [floor(T / k)]; its sizes sum to the total [T]; and
    for [k >= T] it is [T] unit blocks.  For sibling sizes [3; 2; 5] the
    partitions for 4, 6, 10 and 15 blocks are those of the test. *)
Theorem merge_partition (c : HBPParallel) (k : nat) :
  1 <= k ->
  let T := total_out_features c in
  let p := compute_out_features_list c k in
  length p <= k /\
  p = replicate (larger_blocks T k) (ceil_div T k)
      ++ replicate (length p - larger_blocks T k) (T `div` k) /\
  Forall (fun b => b = ceil_div T k \/ b = T `div` k) p /\
  sum_list p = T /\
  (T <= k -> p = replicate T 1) /\
  (out_features_list c = [3; 2; 5] ->
   compute_out_features_list c 4 = [3; 3; 2; 2] /\
   compute_out_features_list c 6 = [2; 2; 2; 2; 1; 1] /\
   compute_out_features_list c 10 = replicate 10 1 /\
   compute_out_features_list c 15 = replicate 10 1).
Proof.
  intros Hk T p.
  assert (Hshape : p = replicate (larger_blocks T k) (ceil_div T k)
      ++ replicate (length p - larger_blocks T k) (T `div` k)).
  { subst p. unfold larger_blocks. fold T. case_bool_decide as HT.
    - rewrite compute_out_features_list_large by done. fold T.
      rewrite length_replicate, Nat.sub_diag. simpl. rewrite app_nil_r.
      destruct (decide (T = 0)) as [->|]; [done|]. f_equal.
      unfold ceil_div. apply (Nat.div_unique _ _ 1 (T - 1)); lia.
    - rewrite compute_out_features_list_small by lia. fold T.
      rewrite length_app, !length_replicate.
      pose proof (Nat.mod_upper_bound T k ltac:(lia)) as Hm.
      replace (T `mod` k + (k - T `mod` k) - T `mod` k) with (k - T `mod` k) by lia.
      rewrite ceil_div_floor by done. case_bool_decide as H0.
      + rewrite H0. simpl. done.
      + done. }
  split_and!.
  - subst p. unfold compute_out_features_list.
    assert (Hlen : forall T' k', length (pack T' k') = k').
    { intros T' k'. revert T'. induction k' as [|k' IH]; intros T'; simpl; [done|].
      by rewrite IH. }
    rewrite Hlen. lia.
  - done.
  - rewrite Hshape. apply Forall_app. split; apply Forall_replicate; auto.
  - by apply sum_compute_out_features_list.
  - intros HT. by apply compute_out_features_list_large.
  - intros Hsizes. unfold compute_out_features_list, total_out_features.
    rewrite Hsizes. by vm_compute.
Qed.

(** The partitions that [test_splitting_into_blocks] checks after its split. *)
Lemma merge_partition_witness :
  compute_out_features_list test_parallel2 4 = [3; 3; 2; 2] /\
  compute_out_features_list test_parallel2 6 = [2; 2; 2; 2; 1; 1] /\
  compute_out_features_list test_parallel2 10 = replicate 10 1 /\
  compute_out_features_list test_parallel2 15 = replicate 10 1.
Proof.
  destruct (merge_partition test_parallel2 4 ltac:(lia)) as (_ & _ & _ & _ & _ & H).
  apply H. reflexivity.
Defined.

Lemma lengths_reshape {A} (szs : list nat) (l : list A) :
  sum_list szs <= length l -> length <$> reshape szs l = szs.
Proof.
  revert l. induction szs as [|sz szs IH]; intros l Hl; csimpl in *; [done|].
  rewrite length_take, IH by (rewrite length_drop; lia). f_equal. lia.
Qed.

Lemma reshape_join {A} (ls : list (list A)) :
  reshape (length <$> ls) (mjoin ls) = ls.
Proof.
  induction ls as [|l ls IH]; csimpl; [done|].
  by rewrite take_app_length, drop_app_length, IH.
Qed.

Lemma total_out_features_join c :
  total_out_features c = length (mjoin (children c)).
Proof.
  unfold total_out_features, out_features_list.
  change out_features with (@length unit_feature). by rewrite length_join.
Qed.

Lemma total_out_features_repartition c sizes :
  sum_list sizes = total_out_features c ->
  total_out_features (repartition c sizes) = total_out_features c.
Proof.
  intros Hs. unfold total_out_features at 1, out_features_list. simpl.
  change out_features with (@length unit_feature).
  rewrite lengths_reshape; [done|].
  rewrite Hs, total_out_features_join. done.
Qed.

Lemma repartition_repartition c sizes sizes' :
  sum_list sizes = total_out_features c ->
  repartition (repartition c sizes) sizes' = repartition c sizes'.
Proof.
  intros Hs. unfold repartition. simpl. f_equal.
  rewrite join_reshape; [done|]. by rewrite Hs, total_out_features_join.
Qed.

Lemma repartition_own_sizes c : repartition c (out_features_list c) = c.
Proof.
  destruct c as [n ls]. unfold repartition, out_features_list. simpl. f_equal.
  change out_features with (@length unit_feature). apply reshape_join.
Qed.

(** C4.  For a target block count [k >= 1], [merge(k)] followed by [split]
    with the sibling sizes of the composite succeeds and returns the
    composite itself: the same blocks of the same unit features, hence the
    same sizes, the same [total_out_features] and the same
    [compute_out_features_list] for every block count. *)
Theorem merge_split_round_trip (c : HBPParallel) (k : nat) :
  1 <= k ->
  exists c',
    split (merge c k) (out_features_list c) = Ok c' /\
    c' = c /\
    out_features_list c' = out_features_list c /\
    total_out_features c' = total_out_features c /\
    forall k', compute_out_features_list c' k' = compute_out_features_list c k'.
Proof.
  intros Hk. exists c.
  pose proof (sum_compute_out_features_list c k Hk) as Hsum.
  split_and!; try done.
  unfold split, merge.
  rewrite total_out_features_repartition by done.
  rewrite bool_decide_eq_true_2 by done.
  by rewrite repartition_repartition, repartition_own_sizes.
Qed.

(** The round trip through [merge(4)] on the composite of the test. *)
Lemma merge_split_round_trip_witness :
  split (merge test_parallel2 4) [3; 2; 5] = Ok test_parallel2.
Proof.
  destruct (merge_split_round_trip test_parallel2 4 ltac:(lia)) as (c' & H & -> & _).
  exact H.
Defined.

End parallel_partitions.

(** * The parallel composite: Hessian backpropagation *)

Section parallel_hessians.
Import parallel.

Lemma big_sum_zero n : big_sum n (fun _ => 0) = 0.
Proof. induction n as [|n IH]; simpl; [done|]. by rewrite IH. Qed.

(** A sum against an indicator keeps one term. *)
Lemma big_sum_indicator n k a g :
  (k < n)%nat ->
  big_sum n (fun l => (if bool_decide (k = l) then a else 0) * g l) = a * g k.
Proof.
  revert k g. induction n as [|n IH]; intros k g Hk; [lia|]. simpl.
  destruct k as [|k].
  - rewrite bool_decide_eq_true_2 by done.
    rewrite (big_sum_ext n _ (fun _ => 0)).
    + rewrite big_sum_zero. lia.
    + intros l _. rewrite bool_decide_eq_false_2 by done. lia.
  - rewrite bool_decide_eq_false_2 by done.
    rewrite (big_sum_ext n _ (fun l => (if bool_decide (k = l) then a else 0) * g (S l))).
    + rewrite (IH k (fun l => g (S l))) by lia. lia.
    + intros l _. repeat case_bool_decide; try lia.
Qed.

(** A sum over the indices of a list is a fold over the list. *)
Lemma big_sum_over_list {A} (d : A) (l : list A) (g : A -> Z) :
  big_sum (length l) (fun k => g (default d (l !! k)))
  = foldr (fun u acc => g u + acc) 0 l.
Proof.
  induction l as [|u l IH]; simpl; [done|]. by rewrite IH.
Qed.

Lemma entry_tabulate n m f i j :
  (i < n)%nat -> (j < m)%nat -> entry (tabulate n m f) i j = f i j.
Proof.
  intros Hi Hj. unfold entry, get, tabulate.
  rewrite list_lookup_fmap, lookup_seq_lt by done. simpl.
  by rewrite list_lookup_fmap, lookup_seq_lt.
Qed.

Lemma tabulate_ext n m f g :
  (forall i j, (i < n)%nat -> (j < m)%nat -> f i j = g i j) ->
  tabulate n m f = tabulate n m g.
Proof.
  intros H. unfold tabulate.
  apply list_fmap_ext. intros ? i [-> Hi]%lookup_seq.
  apply list_fmap_ext. intros ? j [-> Hj]%lookup_seq. apply H; lia.
Qed.

Lemma tabulate_entry n m f : tabulate n m (entry (tabulate n m f)) = tabulate n m f.
Proof. apply tabulate_ext. intros i j Hi Hj. by apply entry_tabulate. Qed.

Lemma foldr_add_acc {A} (g : A -> Z) (a : Z) (l : list A) :
  foldr (fun u acc => g u + acc) a l = foldr (fun u acc => g u + acc) 0 l + a.
Proof. induction l as [|u l IH]; simpl; [done|]. rewrite IH. lia. Qed.

Lemma entry_weight (layer : HBPLinear) k i :
  (k < length layer)%nat ->
  entry (weight layer) k i = get (row (default no_feature (layer !! k))) i.
Proof.
  intros Hk. unfold entry, weight. rewrite list_lookup_fmap.
  destruct (lookup_lt_is_Some_2 layer k Hk) as [u ->]. done.
Qed.

Lemma entry_twice_eye T k l :
  (k < T)%nat -> (l < T)%nat ->
  entry (twice_eye T) k l = if bool_decide (k = l) then 2 else 0.
Proof.
  intros Hk Hl. unfold twice_eye, scale, eye.
  rewrite !entry_tabulate by done. by case_bool_decide.
Qed.

(** Stepping one coordinate of the input moves an affine feature by its
    coefficient. *)
Lemma dot_step r x i :
  (i < length x)%nat -> dot r (step i x) = dot r x + get r i.
Proof.
  unfold dot, step, get. revert x i.
  induction r as [|a r IH]; intros [|v x] [|i] Hi; csimpl in *; try lia.
  rewrite IH by lia. lia.
Qed.

Lemma length_step i x : length (step i x) = length x.
Proof. apply length_alter. Qed.

Lemma forward_units c x :
  forward c x = (fun u => dot (row u) x + offset u) <$> mjoin (children c).
Proof.
  unfold forward. induction (children c) as [|layer rest IH]; csimpl; [done|].
  by rewrite fmap_app, IH.
Qed.

Lemma example_loss_fmap {A} (f : A -> Z) (l : list A) :
  example_loss (f <$> l) = foldr (fun u acc => f u ^ 2 + acc) 0 l.
Proof.
  unfold example_loss. induction l as [|u l IH]; csimpl; [done|]. by rewrite <- IH.
Qed.

Lemma second_difference_of_squares (units : list unit_feature) x i j :
  (i < length x)%nat -> (j < length x)%nat ->
  let F := fun x => foldr (fun u acc => (dot (row u) x + offset u) ^ 2 + acc) 0 units in
  F (step j (step i x)) - F (step i x) - F (step j x) + F x
  = foldr (fun u acc => 2 * get (row u) i * get (row u) j + acc) 0 units.
Proof.
  intros Hi Hj. simpl. induction units as [|u units IH]; simpl; [done|].
  rewrite <- IH.
  rewrite !dot_step by (rewrite ?length_step; done). nia.
Qed.

(** The loss of the test has the Hessian that the test passes on. *)
Lemma exact_hessian_example_loss (y : list Z) :
  exact_hessian example_loss (length y) y = twice_eye (length y).
Proof.
  unfold exact_hessian, twice_eye, scale.
  apply tabulate_ext. intros i j Hi Hj.
  unfold eye. rewrite entry_tabulate by done.
  unfold example_loss, step. revert i j Hi Hj.
  induction y as [|v y IH]; intros i j Hi Hj; simpl in *; [lia|].
  destruct i as [|i], j as [|j]; csimpl.
  - nia.
  - nia.
  - nia.
  - specialize (IH i j ltac:(lia) ltac:(lia)).
    transitivity (2 * (if bool_decide (i = j) then 1 else 0));
      [rewrite <- IH; lia | repeat case_bool_decide; lia].
Qed.

Lemma big_sum_plus n f g :
  big_sum n (fun k => f k + g k) = big_sum n f + big_sum n g.
Proof.
  revert f g. induction n as [|n IH]; intros f g; simpl; [done|].
  rewrite (IH (fun k => f (S k)) (fun k => g (S k))). lia.
Qed.

Lemma big_sum_mul_l n a f :
  big_sum n (fun k => a * f k) = a * big_sum n f.
Proof.
  revert f. induction n as [|n IH]; intros f; simpl; [lia|].
  rewrite (IH (fun k => f (S k))). lia.
Qed.

Lemma big_sum_app n m f :
  big_sum (n + m) f = big_sum n f + big_sum m (fun k => f (n + k)%nat).
Proof.
  revert f. induction n as [|n IH]; intros f; simpl; [done|].
  rewrite (IH (fun k => f (S k))). lia.
Qed.

Lemma big_sum_swap n m (f : nat -> nat -> Z) :
  big_sum n (fun k => big_sum m (fun l => f k l))
  = big_sum m (fun l => big_sum n (fun k => f k l)).
Proof.
  revert f. induction n as [|n IH]; intros f; simpl.
  - by rewrite big_sum_zero.
  - rewrite (IH (fun k l => f (S k) l)). by rewrite <- big_sum_plus.
Qed.

Lemma big_sum_all_zero n f :
  (forall k, (k < n)%nat -> f k = 0) -> big_sum n f = 0.
Proof.
  intros H. rewrite (big_sum_ext n f (fun _ => 0)) by done. apply big_sum_zero.
Qed.

Lemma big_sum_combine n f1 f2 f3 f4 :
  big_sum n f1 - big_sum n f2 - big_sum n f3 + big_sum n f4
  = big_sum n (fun k => f1 k - f2 k - f3 k + f4 k).
Proof.
  revert f1 f2 f3 f4. induction n as [|n IH]; intros f1 f2 f3 f4; simpl; [done|].
  rewrite <- (IH (fun k => f1 (S k)) (fun k => f2 (S k))
                 (fun k => f3 (S k)) (fun k => f4 (S k))). lia.
Qed.

(** The mixed second difference of a form of degree two along two shifts
    [u] and [v] of its arguments. *)
Lemma quadratic_second_difference (A : nat -> nat -> Z) T (y u v : nat -> Z) :
  big_sum T (fun k => big_sum T (fun l =>
     A k l * (y k + u k + v k) * (y l + u l + v l)))
  - big_sum T (fun k => big_sum T (fun l => A k l * (y k + u k) * (y l + u l)))
  - big_sum T (fun k => big_sum T (fun l => A k l * (y k + v k) * (y l + v l)))
  + big_sum T (fun k => big_sum T (fun l => A k l * y k * y l))
  = big_sum T (fun k => big_sum T (fun l => (A k l + A l k) * u k * v l)).
Proof.
  rewrite big_sum_combine.
  rewrite (big_sum_ext T _
    (fun k => big_sum T (fun l => A k l * u k * v l)
              + big_sum T (fun l => A k l * v k * u l))).
  2:{ intros k _. rewrite big_sum_combine, <- big_sum_plus.
      apply big_sum_ext. intros l _. lia. }
  rewrite big_sum_plus.
  rewrite (big_sum_swap T T (fun k l => A k l * v k * u l)).
  rewrite <- big_sum_plus. apply big_sum_ext. intros k _.
  rewrite <- big_sum_plus. apply big_sum_ext. intros l _. lia.
Qed.

Lemma get_step i y k :
  (i < length y)%nat ->
  get (step i y) k = get y k + (if bool_decide (i = k) then 1 else 0).
Proof.
  intros Hi. unfold get, step. case_bool_decide as Hik.
  - subst k. rewrite list_lookup_alter_eq.
    destruct (lookup_lt_is_Some_2 y i Hi) as [v ->]. done.
  - rewrite list_lookup_alter_ne by done. lia.
Qed.

Lemma quadratic_loss_ext A T y (a : nat -> Z) :
  (forall k, get y k = a k) ->
  quadratic_loss A T y
  = big_sum T (fun k => big_sum T (fun l => entry A k l * a k * a l)).
Proof.
  intros H. unfold quadratic_loss. apply big_sum_ext. intros k _.
  apply big_sum_ext. intros l _. by rewrite !H.
Qed.

(** The output Hessian of a loss of degree two is [A + A^T]. *)
Lemma exact_hessian_quadratic_loss A T (y : list Z) :
  length y = T ->
  exact_hessian (quadratic_loss A T) T y
  = tabulate T T (fun k l => entry A k l + entry A l k).
Proof.
  intros Hy. unfold exact_hessian. apply tabulate_ext. intros i j Hi Hj.
  set (u := fun k : nat => if bool_decide (i = k) then 1 else 0).
  set (v := fun k : nat => if bool_decide (j = k) then 1 else 0).
  rewrite (quadratic_loss_ext A T (step j (step i y))
             (fun k => get y k + u k + v k)).
  2:{ intros k. rewrite !get_step by (rewrite ?length_step; lia). done. }
  rewrite (quadratic_loss_ext A T (step i y) (fun k => get y k + u k))
    by (intros k; rewrite get_step by lia; done).
  rewrite (quadratic_loss_ext A T (step j y) (fun k => get y k + v k))
    by (intros k; rewrite get_step by lia; done).
  rewrite (quadratic_loss_ext A T y (get y)) by done.
  rewrite (quadratic_second_difference (entry A)).
  rewrite (big_sum_ext T _
    (fun k => u k * big_sum T (fun l => v l * (entry A k l + entry A l k)))).
  2:{ intros k _. rewrite <- big_sum_mul_l. apply big_sum_ext. intros l _. lia. }
  unfold u, v. rewrite big_sum_indicator by done.
  rewrite big_sum_indicator by done. lia.
Qed.

Lemma coefficient_middle (pre layer post : list unit_feature) k i :
  (k < length layer)%nat ->
  coefficient (pre ++ layer ++ post) (length pre + k) i = entry (weight layer) k i.
Proof.
  intros Hk. unfold coefficient. rewrite entry_weight by done.
  rewrite lookup_app_r, lookup_app_l by lia.
  by replace (length pre + k - length pre)%nat with k by lia.
Qed.

Lemma get_forward c x k :
  get (forward c x) k
  = match mjoin (children c) !! k with
    | Some u => dot (row u) x + offset u
    | None => 0
    end.
Proof.
  rewrite forward_units. unfold get. rewrite list_lookup_fmap.
  by destruct (mjoin (children c) !! k).
Qed.

Lemma get_forward_step c x i k :
  (i < length x)%nat ->
  get (forward c (step i x)) k
  = get (forward c x) k + coefficient (mjoin (children c)) k i.
Proof.
  intros Hi. rewrite !get_forward. unfold coefficient.
  destruct (mjoin (children c) !! k) as [u|]; simpl.
  - rewrite dot_step by done. lia.
  - done.
Qed.

(** The exact input Hessian of a loss of degree two behind the composite
    is [W^T (A + A^T) W], for the stacked weight matrix [W]. *)
Lemma exact_hessian_quadratic_loss_forward A T c x i j :
  (i < length x)%nat -> (j < length x)%nat ->
  let f := quadratic_loss A T ∘ forward c in
  f (step j (step i x)) - f (step i x) - f (step j x) + f x
  = big_sum T (fun k => big_sum T (fun l =>
      (entry A k l + entry A l k)
      * coefficient (mjoin (children c)) k i
      * coefficient (mjoin (children c)) l j)).
Proof.
  intros Hi Hj f. subst f. unfold compose.
  set (u := fun k => coefficient (mjoin (children c)) k i).
  set (v := fun k => coefficient (mjoin (children c)) k j).
  set (y := fun k => get (forward c x) k).
  rewrite (quadratic_loss_ext A T (forward c (step j (step i x)))
             (fun k => y k + u k + v k)).
  2:{ intros k. rewrite !get_forward_step by (rewrite ?length_step; lia). done. }
  rewrite (quadratic_loss_ext A T (forward c (step i x)) (fun k => y k + u k))
    by (intros k; rewrite get_forward_step by lia; done).
  rewrite (quadratic_loss_ext A T (forward c (step j x)) (fun k => y k + v k))
    by (intros k; rewrite get_forward_step by lia; done).
  rewrite (quadratic_loss_ext A T (forward c x) y) by done.
  apply (quadratic_second_difference (entry A)).
Qed.

Lemma big_sum_mul_r n a f :
  big_sum n (fun k => f k * a) = big_sum n f * a.
Proof. induction n as [|n IH] in f |- *; simpl; [done|]. rewrite IH. lia. Qed.

Lemma big_sum_times n m (a b : nat -> Z) :
  big_sum n a * big_sum m b
  = big_sum n (fun k => big_sum m (fun l => a k * b l)).
Proof.
  rewrite <- big_sum_mul_r. apply big_sum_ext. intros k _.
  by rewrite big_sum_mul_l.
Qed.

Lemma foldr_fmap_seq (g : nat -> Z) o n :
  foldr (fun k acc => g k + acc) 0 (seq o n)
  = big_sum n (fun k => g (o + k)%nat).
Proof.
  revert o. induction n as [|n IH]; intros o; simpl; [done|].
  rewrite IH, Nat.add_0_r. f_equal. apply big_sum_ext. intros k _.
  f_equal. lia.
Qed.

Lemma length_jac_t_mat_prod n layer v : length (jac_t_mat_prod n layer v) = n.
Proof. unfold jac_t_mat_prod. by rewrite length_fmap, length_seq. Qed.

Lemma get_jac_t_mat_prod n (layer : HBPLinear) v i :
  (i < n)%nat ->
  get (jac_t_mat_prod n layer v) i
  = big_sum (length layer) (fun k => entry (weight layer) k i * get v k).
Proof.
  intros Hi. unfold get at 1, jac_t_mat_prod.
  by rewrite list_lookup_fmap, lookup_seq_lt.
Qed.

Lemma Forall_length_sibling_contributions n layers v :
  Forall (fun r => length r = n) (sibling_contributions n layers v).
Proof.
  revert v. induction layers as [|layer rest IH]; intros v; simpl; constructor.
  - apply length_jac_t_mat_prod.
  - apply IH.
Qed.

Lemma coefficient_later (layer rest : list unit_feature) k i :
  coefficient (layer ++ rest) (length layer + k) i = coefficient rest k i.
Proof.
  unfold coefficient. rewrite lookup_app_r by lia.
  by replace (length layer + k - length layer)%nat with k by lia.
Qed.

(** The sum of the siblings' contributions, each computed from its own
    slice of the vector with its own weights, is the product of the whole
    vector with the transposed Jacobian of the composite. *)
Lemma get_sum_contributions n (layers : list HBPLinear) v i :
  (i < n)%nat ->
  get (vsum n (sibling_contributions n layers v)) i
  = big_sum (length (mjoin layers))
      (fun k => coefficient (mjoin layers) k i * get v k).
Proof.
  intros Hi. rewrite get_vsum by apply Forall_length_sibling_contributions.
  revert v. induction layers as [|layer rest IH]; intros v; [done|].
  cbn [sibling_contributions foldr]. rewrite IH, get_jac_t_mat_prod by done.
  change (mjoin (layer :: rest)) with (layer ++ mjoin rest).
  rewrite length_app, big_sum_app. unfold out_features. f_equal.
  - apply big_sum_ext. intros k Hk. rewrite get_take by done. f_equal.
    symmetry. apply (coefficient_middle [] layer (mjoin rest) k i Hk).
  - apply big_sum_ext. intros k _. by rewrite coefficient_later, get_drop.
Qed.

Lemma entry_reconstruct n (F : sqrt_factor) i j :
  (i < n)%nat -> (j < n)%nat ->
  entry (reconstruct n F) i j
  = foldr (fun p acc => p.1 * get p.2 i * get p.2 j + acc) 0 F.
Proof. intros Hi Hj. unfold reconstruct. by rewrite entry_tabulate. Qed.

(** The curvature that the composite forwards, entry by entry:
    [J^T H J] for the curvature [H] that the upstream factor represents
    and the Jacobian [J] of the composite. *)
Lemma entry_reconstruct_backward_hessian c (F : sqrt_factor) i j :
  (i < in_features c)%nat -> (j < in_features c)%nat ->
  let T := length (mjoin (children c)) in
  entry (reconstruct (in_features c) (backward_hessian c F)) i j
  = big_sum T (fun k => big_sum T (fun l =>
      foldr (fun p acc => p.1 * get p.2 k * get p.2 l + acc) 0 F
      * coefficient (mjoin (children c)) k i
      * coefficient (mjoin (children c)) l j)).
Proof.
  intros Hi Hj T. rewrite entry_reconstruct by done. unfold backward_hessian.
  induction F as [|[sigma v] F IH].
  - simpl. symmetry. apply big_sum_all_zero. intros k _.
    apply big_sum_all_zero. intros l _. lia.
  - rewrite fmap_cons. cbn [foldr fst snd]. rewrite IH.
    rewrite !get_sum_contributions by done. fold T.
    rewrite <- Z.mul_assoc, big_sum_times, <- big_sum_mul_l, <- big_sum_plus.
    apply big_sum_ext. intros k _.
    rewrite <- big_sum_mul_l, <- big_sum_plus.
    apply big_sum_ext. intros l _. lia.
Qed.

Lemma get_unit_vector T k l :
  (l < T)%nat -> get (unit_vector T k) l = if bool_decide (l = k) then 1 else 0.
Proof.
  intros Hl. unfold get, unit_vector.
  by rewrite list_lookup_fmap, lookup_seq_lt.
Qed.

(** Every unit vector twice, with positive signs, is a square-root factor
    of [2 * eye]. *)
Lemma reconstruct_twice_eye_factor T :
  reconstruct T (twice_eye_factor T) = twice_eye T.
Proof.
  unfold reconstruct, twice_eye, scale, twice_eye_factor.
  apply tabulate_ext. intros i j Hi Hj.
  rewrite fmap_app, foldr_app.
  rewrite (foldr_add_acc (fun p => p.1 * get p.2 i * get p.2 j)).
  assert (Hsum : foldr (fun (p : Z * list Z) acc => p.1 * get p.2 i * get p.2 j + acc) 0
                   ((fun k => (1, unit_vector T k)) <$> seq 0 T)
                 = entry (eye T) i j).
  { rewrite foldr_fmap. cbn [fst snd].
    rewrite (foldr_fmap_seq (fun k => 1 * get (unit_vector T k) i * get (unit_vector T k) j)).
    rewrite (big_sum_ext _ _ (fun k => (if bool_decide (i = k) then 1 else 0)
                                      * get (unit_vector T k) j)).
    - rewrite big_sum_indicator, get_unit_vector by done.
      unfold eye. rewrite entry_tabulate by done.
      repeat case_bool_decide; subst; done.
    - intros k Hk. simpl. rewrite (get_unit_vector T k i) by done. lia. }
  rewrite Hsum. lia.
Qed.

(** C3.  Backpropagating the curvature of a loss through a parallel
    composite: each sibling receives the slice of every vector of the
    upstream square-root factor that belongs to its own output features,
    and the composite forwards the sum of the siblings' contributions.
    That sum is the product of the whole vector with the transposed
    Jacobian of the composite, so that no coupling between the outputs of
    two siblings is lost; and whenever the upstream factor represents the
    exact Hessian of the loss with respect to the output, the factor that
    [backward_hessian] returns represents the exact (brute-force) Hessian
    of the loss with respect to the shared input: for every loss of degree
    two in the outputs, and for the loss of the test, the sum of the
    squared outputs, whose output Hessian [2 * eye] is represented by
    [twice_eye_factor]. *)
Theorem backward_hessian_exact (c : HBPParallel) (x : list Z) :
  length x = in_features c ->
  let n := in_features c in
  let T := total_out_features c in
  let out := forward c x in
  (forall v i, (i < n)%nat ->
     get (vsum n (sibling_contributions n (children c) v)) i
     = big_sum T (fun k => coefficient (mjoin (children c)) k i * get v k)) /\
  (forall A F,
     reconstruct T F = exact_hessian (quadratic_loss A T) T out ->
     reconstruct n (backward_hessian c F)
     = exact_hessian (quadratic_loss A T ∘ forward c) n x) /\
  (forall F,
     reconstruct T F = exact_hessian example_loss (length out) out ->
     reconstruct n (backward_hessian c F)
     = exact_hessian (example_loss ∘ forward c) n x) /\
  reconstruct T (twice_eye_factor T) = exact_hessian example_loss (length out) out /\
  exact_hessian example_loss (length out) out = twice_eye T.
Proof.
  intros Hx n T out.
  assert (HT : T = length (mjoin (children c))) by apply total_out_features_join.
  assert (Hout : length out = T).
  { subst out. by rewrite forward_units, length_fmap. }
  assert (Heye : exact_hessian example_loss (length out) out = twice_eye T).
  { rewrite exact_hessian_example_loss. by rewrite Hout. }
  split_and!.
  - intros v i Hi. rewrite HT. by apply get_sum_contributions.
  - intros A F HF.
    rewrite exact_hessian_quadratic_loss in HF by done.
    transitivity (tabulate n n (entry (reconstruct n (backward_hessian c F))));
      [unfold reconstruct; symmetry; apply tabulate_entry|].
    unfold exact_hessian. apply tabulate_ext. intros i j Hi Hj.
    unfold n. rewrite entry_reconstruct_backward_hessian by done.
    cbv zeta. rewrite <- HT.
    rewrite exact_hessian_quadratic_loss_forward by lia.
    apply big_sum_ext. intros k Hk. apply big_sum_ext. intros l Hl.
    rewrite <- (entry_reconstruct T F k l Hk Hl), HF, entry_tabulate by done.
    done.
  - intros F HF. rewrite Heye in HF.
    transitivity (tabulate n n (entry (reconstruct n (backward_hessian c F))));
      [unfold reconstruct; symmetry; apply tabulate_entry|].
    unfold exact_hessian. apply tabulate_ext. intros i j Hi Hj.
    unfold n. rewrite entry_reconstruct_backward_hessian by done.
    cbv zeta. rewrite <- HT.
    unfold compose. rewrite !forward_units, !example_loss_fmap.
    rewrite (second_difference_of_squares (mjoin (children c))) by lia.
    rewrite <- (big_sum_over_list no_feature (mjoin (children c))
                  (fun u => 2 * get (row u) i * get (row u) j)).
    rewrite <- HT. apply big_sum_ext. intros k Hk.
    rewrite (big_sum_ext _ _ (fun l =>
               (if bool_decide (k = l) then 2 else 0)
               * (coefficient (mjoin (children c)) k i
                  * coefficient (mjoin (children c)) l j))).
    + rewrite big_sum_indicator by done. unfold coefficient. lia.
    + intros l Hl.
      rewrite <- (entry_reconstruct T F k l Hk Hl), HF, entry_twice_eye by done.
      lia.
  - by rewrite reconstruct_twice_eye_factor.
  - done.
Qed.

(** The theorem on two siblings whose outputs the loss [y0 * y1] couples,
    and on [example_composite] with the loss of the test. *)
Lemma backward_hessian_exact_witness :
  reconstruct 2 product_factor
  = exact_hessian (quadratic_loss product_coefficients 2) 2
      (forward coupled_composite [3]) /\
  reconstruct 2 product_factor = [[0; 1]; [1; 0]] /\
  reconstruct 1 (backward_hessian coupled_composite product_factor)
  = exact_hessian (quadratic_loss product_coefficients 2 ∘ forward coupled_composite)
      1 [3] /\
  reconstruct 1 (backward_hessian coupled_composite product_factor) = [[2]] /\
  reconstruct 2 (backward_hessian example_composite (twice_eye_factor 3))
  = exact_hessian (example_loss ∘ forward example_composite) 2 [4; 7].
Proof.
  destruct (backward_hessian_exact coupled_composite [3] eq_refl) as (_ & Hq & _).
  destruct (backward_hessian_exact example_composite [4; 7] eq_refl)
    as (_ & _ & He & Hf & _).
  split_and!.
  - vm_compute. reflexivity.
  - vm_compute. reflexivity.
  - apply (Hq product_coefficients product_factor). vm_compute. reflexivity.
  - vm_compute. reflexivity.
  - apply He, Hf.
Defined.

End parallel_hessians.

(** * The derivative tests: parametrization, skipping and expected failures *)

Section derivatives_test_facts.
Import derivatives_test.

Lemma select_problems_spec {problem} (make_id : problem -> string)
    (has : problem -> bool) (PROBLEMS : list problem) :
  select_problems make_id PROBLEMS has
  = (List.filter has PROBLEMS, make_id <$> List.filter has PROBLEMS).
Proof.
  unfold select_problems, IDS.
  assert (G : forall (l : list problem) ps ids,
    foldl (fun acc item =>
             if has item.1 then (acc.1 ++ [item.1], acc.2 ++ [item.2]) else acc)
      (ps, ids) (zip l (make_id <$> l))
    = (ps ++ List.filter has l, ids ++ (make_id <$> List.filter has l))).
  { induction l as [|p l IH]; intros ps ids; simpl.
    - by rewrite !app_nil_r.
    - destruct (has p); simpl; rewrite IH; [|done].
      by rewrite <- !app_assoc. }
  apply (G PROBLEMS [] []).
Qed.

(** The loops that build [PROBLEMS_WITH_WEIGHTS] and [PROBLEMS_WITH_BIAS]
    keep the problems that have a weight (a bias) in the order of
    [PROBLEMS], and the identifiers that they hand to [parametrize] are the
    identifiers of those problems, one for one. *)
Theorem parametrization_ids_match_problems {problem}
    (make_id : problem -> string) (has_weight has_bias : problem -> bool)
    (PROBLEMS : list problem) :
  PROBLEMS_WITH_WEIGHTS make_id has_weight PROBLEMS = List.filter has_weight PROBLEMS /\
  IDS_WITH_WEIGHTS make_id has_weight PROBLEMS
  = make_id <$> PROBLEMS_WITH_WEIGHTS make_id has_weight PROBLEMS /\
  PROBLEMS_WITH_BIAS make_id has_bias PROBLEMS = List.filter has_bias PROBLEMS /\
  IDS_WITH_BIAS make_id has_bias PROBLEMS
  = make_id <$> PROBLEMS_WITH_BIAS make_id has_bias PROBLEMS.
Proof.
  unfold PROBLEMS_WITH_WEIGHTS, IDS_WITH_WEIGHTS, PROBLEMS_WITH_BIAS, IDS_WITH_BIAS.
  by rewrite !select_problems_spec.
Qed.

(** Every problem is parametrized either as a loss or as a layer:
    [NO_LOSS_PROBLEMS] and [LOSS_PROBLEMS] together are a rearrangement of
    [PROBLEMS], the former holds the problems that are no loss and the
    latter those that are. *)
Theorem loss_problems_partition {problem} (is_loss : problem -> bool)
    (PROBLEMS : list problem) :
  PROBLEMS ≡ₚ NO_LOSS_PROBLEMS is_loss PROBLEMS ++ LOSS_PROBLEMS is_loss PROBLEMS /\
  (forall p, p ∈ NO_LOSS_PROBLEMS is_loss PROBLEMS
             <-> p ∈ PROBLEMS /\ is_loss p = false) /\
  (forall p, p ∈ LOSS_PROBLEMS is_loss PROBLEMS
             <-> p ∈ PROBLEMS /\ is_loss p = true).
Proof.
  unfold NO_LOSS_PROBLEMS, LOSS_PROBLEMS. split_and!.
  - induction PROBLEMS as [|p l IH]; simpl; [done|].
    destruct (is_loss p); simpl.
    + rewrite <- Permutation_middle. by constructor.
    + by constructor.
  - intros p. rewrite !list_elem_of_In, filter_In.
    by destruct (is_loss p); intuition.
  - intros p. by rewrite !list_elem_of_In, filter_In.
Qed.

(** [test_hessian_is_zero] is one-sided.  It fails exactly on a layer (no
    loss) with at most 100 input elements for which BackPACK declares the
    Hessian zero while autograd finds it non-zero; when autograd finds it
    zero and BackPACK does not, the test passes with a warning; it is
    skipped exactly for inputs of more than 100 elements and for losses. *)
Theorem test_hessian_is_zero_is_one_sided {problem}
    (input_numel : problem -> nat) (is_loss backpack autograd : problem -> bool)
    (p : problem) :
  let verdict := run_test_hessian_is_zero input_numel is_loss backpack autograd p in
  ((exists message, verdict = Failed message)
   <-> (input_numel p <= 100)%nat /\ is_loss p = false /\
       backpack p = true /\ autograd p = false) /\
  ((exists warning, verdict = Passed [warning])
   <-> (input_numel p <= 100)%nat /\ is_loss p = false /\
       backpack p = false /\ autograd p = true) /\
  ((exists reason, verdict = Skipped reason)
   <-> (100 < input_numel p)%nat \/ is_loss p = true).
Proof.
  unfold run_test_hessian_is_zero, small_input_problem, no_loss_problem,
    test_hessian_is_zero.
  case_bool_decide as Hn; simpl.
  { split_and!; (split; [intros [? ?]|intros ?]);
      try done; try lia; try (by eexists); by left. }
  destruct (is_loss p); simpl.
  { split_and!; (split; [intros [? ?]|intros ?]);
      try done; try (by destruct_and!); try (by eexists); by right. }
  destruct (backpack p), (autograd p); simpl;
    split_and!; (split; [intros [? ?]|intros ?]);
    try done; try (by destruct_and!); try (by destruct_or!; [lia|done]);
    try (by eexists); split_and!; try done; lia.
Qed.

(** What [test_sum_hessian_should_fail] accepts: the test passes exactly
    when some step of [test_sum_hessian] raises [ValueError], be it
    [set_up], BackPACK's [sum_hessian], autograd's, the comparison or
    [tear_down]; the world is then as the raising step has left it, so what
    comes after that step ([tear_down], unless it is the one that raises)
    has not run. *)
Theorem should_fail_accepts_any_ValueError {problem world value}
    (set_up tear_down : problem -> @action world unit)
    (backpack_sum_hessian autograd_sum_hessian : problem -> @action world value)
    (check_sizes_and_values : value -> value -> @action world unit)
    (p : problem) (w w' : world) :
  test_sum_hessian_should_fail set_up tear_down backpack_sum_hessian
    autograd_sum_hessian check_sizes_and_values p w = (w', Passed [])
  <-> exists message,
        set_up p w = (w', Raise (ValueError message)) \/
        exists w1, set_up p w = (w1, Ok tt) /\
          (backpack_sum_hessian p w1 = (w', Raise (ValueError message)) \/
           exists w2 backpack_res,
             backpack_sum_hessian p w1 = (w2, Ok backpack_res) /\
             (autograd_sum_hessian p w2 = (w', Raise (ValueError message)) \/
              exists w3 autograd_res,
                autograd_sum_hessian p w2 = (w3, Ok autograd_res) /\
                (check_sizes_and_values autograd_res backpack_res w3
                 = (w', Raise (ValueError message)) \/
                 exists w4,
                   check_sizes_and_values autograd_res backpack_res w3 = (w4, Ok tt) /\
                   tear_down p w4 = (w', Raise (ValueError message))))).
Proof.
  unfold test_sum_hessian_should_fail, pytest_raises_ValueError, test_sum_hessian, abind.
  split.
  - destruct (set_up p w) as [w1 [[]|e1]] eqn:E1;
      [|destruct e1; intros [= <-]; eauto].
    destruct (backpack_sum_hessian p w1) as [w2 [b|e2]] eqn:E2;
      [|destruct e2; intros [= <-]; eauto 7].
    destruct (autograd_sum_hessian p w2) as [w3 [a|e3]] eqn:E3;
      [|destruct e3; intros [= <-]; eauto 11].
    destruct (check_sizes_and_values a b w3) as [w4 [[]|e4]] eqn:E4;
      [|destruct e4; intros [= <-]; eauto 15].
    destruct (tear_down p w4) as [w5 [[]|e5]] eqn:E5;
      [done|destruct e5; intros [= <-]; eauto 20].
  - intros (message & [E|(w1 & E1 & [E|(w2 & b & E2 & [E|(w3 & a & E3 &
                        [E|(w4 & E4 & E)])])])]);
      rewrite ?E1, ?E2, ?E3, ?E4, ?E; done.
Qed.

End derivatives_test_facts.
